(** * Photo library: store queries, viewer navigation, grid selection, grouping

    A shallow embedding of the logic of the photo library front end:
    - [App] (App.tsx): the search filter, [toggleFavorite], and the
      [onNext] / [onPrevious] callbacks handed to the viewer;
    - [Viewer] (components/PhotoViewer.tsx): zoom, pan and the effect that
      resets them when the shown photo changes;
    - [Grid] (components/PhotoGrid.tsx): multi-selection and the bulk actions;
    - [Grouping] (components/PhotoGrid.tsx): the per-day buckets of the grid.

    JavaScript values are modelled as follows.  Strings are [string]; the
    case mapping [toLowerCase] of the host is a parameter.  Array indices
    are [Z], so
    that [findIndex]'s [-1] and a negative subscript are representable; a
    subscript outside the array reads [undefined], here [None].  The numbers
    [zoom] and [position] are IEEE binary64 values, here primitive floats.
    A [Set] is the list of its elements in insertion order, which is the order
    [forEach] and [for .. of] follow.  A React state cell is a field of a
    state record, an event handler a function from state to state. *)

From Stdlib Require Import List String Ascii Bool ZArith NArith Arith Lia.
From Stdlib Require Import Permutation Sorted PrimFloat.
Import ListNotations.

Open Scope string_scope.
Open Scope list_scope.
Open Scope Z_scope.

(** ** types/photo.ts *)

Record Photo := mkPhoto {
  id : string;
  name : string;
  url : string;
  thumbnail : string;
  size : Z;
  type : string;
  width : Z;
  height : Z;
  uploadedAt : string;
  isFavorite : bool;
  tags : list string;
  location : option string
}.

(** [{ ...photo, isFavorite: b }] *)
Definition with_isFavorite (photo : Photo) (b : bool) : Photo :=
  mkPhoto (id photo) (name photo) (url photo) (thumbnail photo) (size photo)
          (type photo) (width photo) (height photo) (uploadedAt photo)
          b (tags photo) (location photo).

(** ** JavaScript built-ins used by the components *)

Module JS.

(** [Array.prototype.findIndex]: the first index whose element satisfies
    [f], [-1] when there is none. *)
Fixpoint findIndex_from {A} (f : A -> bool) (l : list A) (i : Z) : Z :=
  match l with
  | [] => -1
  | a :: l' => if f a then i else findIndex_from f l' (i + 1)
  end.

Definition findIndex {A} (f : A -> bool) (l : list A) : Z :=
  findIndex_from f l 0.

(** [a % b] on integral numbers: the remainder has the sign of the
    dividend; [NaN] ([None]) when the divisor is zero. *)
Definition rem (a b : Z) : option Z :=
  if b =? 0 then None else Some (Z.rem a b).

(** [arr[i]]: [undefined] for [NaN], a negative or a too large subscript. *)
Definition at_index {A} (arr : list A) (i : option Z) : option A :=
  match i with
  | None => None
  | Some i => if i <? 0 then None else nth_error arr (Z.to_nat i)
  end.

(** What [String.prototype.toLowerCase] does to a string of ASCII
    characters: the letters A to Z become a to z, nothing else changes.  The
    case mapping itself, which covers all of Unicode, is a parameter of
    what uses it. *)
Definition lower_ascii (c : ascii) : ascii :=
  let n := N_of_ascii c in
  if ((65 <=? n) && (n <=? 90))%N then ascii_of_N (n + 32) else c.

Fixpoint toLowerCase_ascii (s : string) : string :=
  match s with
  | EmptyString => EmptyString
  | String c s' => String (lower_ascii c) (toLowerCase_ascii s')
  end.


Fixpoint startsWith (s q : string) : bool :=
  match q, s with
  | EmptyString, _ => true
  | String _ _, EmptyString => false
  | String b q', String a s' => Ascii.eqb a b && startsWith s' q'
  end.

(** [s.includes(q)]: [q] occurs in [s] at some position. *)
Fixpoint includes (s q : string) : bool :=
  startsWith s q ||
  match s with
  | EmptyString => false
  | String _ s' => includes s' q
  end.

(** [Math.min] and [Math.max] of two numbers: [NaN] if either is [NaN],
    and [-0] is smaller than [+0]. *)
Definition is_neg_zero (v : float) : bool :=
  (PrimFloat.is_zero v && PrimFloat.get_sign v)%bool.

Definition Math_min (a b : float) : float :=
  if (PrimFloat.is_nan a || PrimFloat.is_nan b)%bool then PrimFloat.nan
  else if PrimFloat.ltb a b then a
  else if PrimFloat.ltb b a then b
  else if is_neg_zero b then b else a.

Definition Math_max (a b : float) : float :=
  if (PrimFloat.is_nan a || PrimFloat.is_nan b)%bool then PrimFloat.nan
  else if PrimFloat.ltb b a then a
  else if PrimFloat.ltb a b then b
  else if is_neg_zero a then b else a.

(** A [Set] of strings, as the sequence of its elements in insertion
    order. *)
Definition StringSet := list string.

Definition Set_has (s : StringSet) (v : string) : bool :=
  existsb (String.eqb v) s.

Definition Set_add (s : StringSet) (v : string) : StringSet :=
  if Set_has s v then s else s ++ [v].

Definition Set_delete (s : StringSet) (v : string) : StringSet :=
  filter (fun w => negb (String.eqb w v)) s.

Definition Set_size (s : StringSet) : Z := Z.of_nat (List.length s).

(** [new Set(iterable)] adds the elements one after the other. *)
Definition Set_of (l : list string) : StringSet :=
  fold_left Set_add l [].

(** [s.forEach(cb)], the callback acting on some outer state [W]. *)
Definition Set_forEach {W} (s : StringSet) (cb : string -> W -> W) (w : W) : W :=
  fold_left (fun w v => cb v w) s w.

End JS.

(** ** App.tsx *)

Module App.

(** [filteredPhotos], for the collection [photos] and the text of the
    search box; [toLowerCase] is [String.prototype.toLowerCase]. *)
Definition filteredPhotos (toLowerCase : string -> string)
           (photos : list Photo) (searchQuery : string) : list Photo :=
  filter (fun photo =>
            JS.includes (toLowerCase (name photo)) (toLowerCase searchQuery)
            || existsb (fun tag =>
                          JS.includes (toLowerCase tag)
                                      (toLowerCase searchQuery))
                       (tags photo))
         photos.

Inductive View := photos_view | albums_view | favorites_view.

Definition displayPhotos (currentView : View) (filtered : list Photo)
  : list Photo :=
  match currentView with
  | favorites_view => filter isFavorite filtered
  | _ => filtered
  end.

Definition handlePhotoUpload (newPhotos prev : list Photo) : list Photo :=
  prev ++ newPhotos.

(** The updater that [toggleFavorite] passes to [setPhotos]. *)
Definition toggleFavorite (photoId : string) (prev : list Photo) : list Photo :=
  map (fun photo =>
         if String.eqb (id photo) photoId
         then with_isFavorite photo (negb (isFavorite photo))
         else photo)
      prev.

(** [onNext] and [onPrevious]: the value handed to [setSelectedPhoto];
    [None] is [undefined]. *)
Definition onNext (displayPhotos : list Photo) (selectedPhoto : Photo)
  : option Photo :=
  let currentIndex :=
    JS.findIndex (fun p => String.eqb (id p) (id selectedPhoto)) displayPhotos in
  let nextIndex := JS.rem (currentIndex + 1) (Z.of_nat (List.length displayPhotos)) in
  JS.at_index displayPhotos nextIndex.

Definition onPrevious (displayPhotos : list Photo) (selectedPhoto : Photo)
  : option Photo :=
  let currentIndex :=
    JS.findIndex (fun p => String.eqb (id p) (id selectedPhoto)) displayPhotos in
  let prevIndex :=
    if currentIndex =? 0 then Z.of_nat (List.length displayPhotos) - 1
    else currentIndex - 1 in
  JS.at_index displayPhotos (Some prevIndex).

End App.

(** ** components/PhotoViewer.tsx *)

Module Viewer.

Record Point := mkPoint { x : float; y : float }.

Record State := mkState {
  showInfo : bool;
  zoom : float;
  position : Point;
  isDragging : bool;
  dragStart : Point
}.

Definition origin : Point := mkPoint 0%float 0%float.

(** The initial values of the [useState] cells. *)
Definition initial : State := mkState false 1%float origin false origin.

(** The effect with dependency list [[photo.id]]: it runs when the id of
    the photo prop differs from the one of the previous render. *)
Definition resetEffect (previousId currentId : string) (st : State) : State :=
  if String.eqb previousId currentId then st
  else mkState (showInfo st) 1%float origin (isDragging st) (dragStart st).

Definition handleZoomIn (st : State) : State :=
  mkState (showInfo st) (JS.Math_min (zoom st * 1.5) 5)%float
          (position st) (isDragging st) (dragStart st).

Definition handleZoomOut (st : State) : State :=
  mkState (showInfo st) (JS.Math_max (zoom st / 1.5) 0.5)%float
          (position st) (isDragging st) (dragStart st).

Definition handleMouseDown (clientX clientY : float) (st : State) : State :=
  if PrimFloat.ltb 1 (zoom st)
  then mkState (showInfo st) (zoom st) (position st) true
               (mkPoint (clientX - x (position st))%float
                        (clientY - y (position st))%float)
  else st.

Definition handleMouseMove (clientX clientY : float) (st : State) : State :=
  if (isDragging st && PrimFloat.ltb 1 (zoom st))%bool
  then mkState (showInfo st) (zoom st)
               (mkPoint (clientX - x (dragStart st))%float
                        (clientY - y (dragStart st))%float)
               (isDragging st) (dragStart st)
  else st.

Definition handleMouseUp (st : State) : State :=
  mkState (showInfo st) (zoom st) (position st) false (dragStart st).

Definition toggleInfo (st : State) : State :=
  mkState (negb (showInfo st)) (zoom st) (position st) (isDragging st)
          (dragStart st).

(** The viewer while it is mounted: [App]'s [selectedPhoto] together with
    the viewer's own cells. *)
Record Open := mkOpen { selectedPhoto : Photo; view : State }.

Definition open (photo : Photo) : Open := mkOpen photo initial.

(** [setSelectedPhoto(v)] followed by the render it causes.  [App] mounts
    the viewer only while [selectedPhoto] is truthy, so [undefined]
    unmounts it ([None]); otherwise the viewer is rendered with the new
    photo prop and the reset effect sees the old and the new id. *)
Definition setSelectedPhoto (v : option Photo) (o : Open) : option Open :=
  match v with
  | None => None
  | Some p =>
      Some (mkOpen p (resetEffect (id (selectedPhoto o)) (id p) (view o)))
  end.

Definition next (displayPhotos : list Photo) (o : Open) : option Open :=
  setSelectedPhoto (App.onNext displayPhotos (selectedPhoto o)) o.

Definition previous (displayPhotos : list Photo) (o : Open) : option Open :=
  setSelectedPhoto (App.onPrevious displayPhotos (selectedPhoto o)) o.

Inductive ZoomCall := ZoomIn | ZoomOut.

Definition zoomCall (st : State) (c : ZoomCall) : State :=
  match c with
  | ZoomIn => handleZoomIn st
  | ZoomOut => handleZoomOut st
  end.

Definition zoomCalls (cs : list ZoomCall) (st : State) : State :=
  fold_left zoomCall cs st.

(** The values [zoom] takes from [1], in binary64: the powers of [1.5]
    up to the upper clamp, the way down from [5], the way up from [0.5],
    and the three values where rounding leaves those chains. *)
Definition zoom_levels : list float :=
  [1; 1.5; 2.25; 3.375; 5;
   0x1.aaaaaaaaaaaabp+1; 0x1.1c71c71c71c72p+1; 0x1.7b425ed097b43p+0;
   0x1.f9add3c0ca459p-1; 0x1.511e8d2b3183bp-1; 0.5;
   0.75; 1.125; 1.6875; 2.53125; 3.796875;
   0x1.5555555555555p-1; 0x1.f9add3c0ca458p-1; 0x1.7b425ed097b42p+0]%float.

End Viewer.

(** ** components/PhotoGrid.tsx: selection *)

Module Grid.

Record State := mkState {
  selectedPhotos : JS.StringSet;
  isSelectionMode : bool
}.

Definition initial : State := mkState [] false.

(** What a handler asks of the outside: the callbacks of the props and the
    download helper.  [DownloadVisit photoId found] is one turn of the
    download loop, which downloads when [photos.find] found the photo. *)
Inductive Effect :=
| OnPhotoClick (photo : Photo)
| OnToggleFavorite (photoId : string)
| DownloadVisit (photoId : string) (found : option Photo)
| OnDeletePhoto (photoId : string).

(** The updater of [togglePhotoSelection]; it works on a copy of [prev]
    and calls [setIsSelectionMode(false)] when the copy ends up empty. *)
Definition togglePhotoSelection (photoId : string) (st : State) : State :=
  let newSet :=
    if JS.Set_has (selectedPhotos st) photoId
    then JS.Set_delete (selectedPhotos st) photoId
    else JS.Set_add (selectedPhotos st) photoId in
  mkState newSet
          (if JS.Set_size newSet =? 0 then false else isSelectionMode st).

Definition startSelectionMode (photoId : string) (st : State) : State :=
  mkState (JS.Set_of [photoId]) true.

Definition exitSelectionMode (st : State) : State :=
  mkState (JS.Set_of []) false.

Definition selectAllPhotos (photos : list Photo) (st : State) : State :=
  mkState (JS.Set_of (map id photos)) (isSelectionMode st).

Definition handlePhotoClick (photo : Photo) (st : State)
  : State * list Effect :=
  if isSelectionMode st
  then (togglePhotoSelection (id photo) st, [])
  else (st, [OnPhotoClick photo]).

(** The three bulk buttons of the toolbar.  Each loop runs over the set of
    the render in which the button was pressed; no handler mutates a set in
    place, so the loop of the asynchronous download sees that set to its
    end. *)
Definition favoriteSelected (st : State) : State * list Effect :=
  (st, JS.Set_forEach (selectedPhotos st)
         (fun photoId out => out ++ [OnToggleFavorite photoId]) []).

Definition downloadSelected (photos : list Photo) (st : State)
  : State * list Effect :=
  (st, JS.Set_forEach (selectedPhotos st)
         (fun photoId out =>
            out ++ [DownloadVisit photoId
                      (find (fun p => String.eqb (id p) photoId) photos)])
         []).

Definition deleteSelected (st : State) : State * list Effect :=
  (exitSelectionMode st,
   JS.Set_forEach (selectedPhotos st)
     (fun photoId out => out ++ [OnDeletePhoto photoId]) []).

(** The id a bulk action was called with, in a turn of its loop. *)
Definition visited (e : Effect) : option string :=
  match e with
  | OnPhotoClick _ => None
  | OnToggleFavorite photoId => Some photoId
  | DownloadVisit photoId _ => Some photoId
  | OnDeletePhoto photoId => Some photoId
  end.

Fixpoint visits (es : list Effect) : list string :=
  match es with
  | [] => []
  | e :: es' =>
      match visited e with
      | Some v => v :: visits es'
      | None => visits es'
      end
  end.

(** The events of the rendered grid. *)
Inductive Event :=
| Click (photo : Photo)
| ContextMenu (photo : Photo)
| SelectAll
| FavoriteSelected
| DownloadSelected
| DeleteSelected
| Cancel.

Definition mem_id (photo : Photo) (photos : list Photo) : bool :=
  existsb (fun p => String.eqb (id p) (id photo)) photos.

(** One event on the grid rendered for [photos], with or without the
    optional [onDeletePhoto] prop.  [None]: the control is not rendered, so
    the event cannot occur.  The component renders nothing for an empty
    [photos]; a tile exists for each element of [photos]; the toolbar exists
    only in selection mode, its delete button only with [onDeletePhoto]. *)
Definition dispatch (photos : list Photo) (onDeletePhoto : bool)
           (e : Event) (st : State) : option (State * list Effect) :=
  match photos with
  | [] => None
  | _ :: _ =>
      match e with
      | Click photo =>
          if mem_id photo photos
          then Some (handlePhotoClick photo st) else None
      | ContextMenu photo =>
          if mem_id photo photos
          then Some (if negb (isSelectionMode st)
                     then (startSelectionMode (id photo) st, [])
                     else (st, []))
          else None
      | SelectAll =>
          if isSelectionMode st then Some (selectAllPhotos photos st, [])
          else None
      | FavoriteSelected =>
          if isSelectionMode st then Some (favoriteSelected st) else None
      | DownloadSelected =>
          if isSelectionMode st then Some (downloadSelected photos st)
          else None
      | DeleteSelected =>
          if (isSelectionMode st && onDeletePhoto)%bool
          then Some (deleteSelected st) else None
      | Cancel =>
          if isSelectionMode st then Some (exitSelectionMode st, [])
          else None
      end
  end.

(** The states of a mounted grid: from the initial one, by events, the
    props being free to change between two events. *)
Inductive reachable : State -> Prop :=
| reachable_initial : reachable initial
| reachable_step photos onDeletePhoto e st st' out :
    reachable st ->
    dispatch photos onDeletePhoto e st = Some (st', out) ->
    reachable st'.

(** A run of [togglePhotoSelection] updates. *)
Definition toggles (photoIds : list string) (st : State) : State :=
  fold_left (fun st photoId => togglePhotoSelection photoId st) photoIds st.

End Grid.

(** ** components/PhotoGrid.tsx: the buckets per day *)

Module Grouping.

(** The accumulator of the [reduce]: an object used as a map from date label
    to photos, as its own properties in creation order. *)
Definition Groups := list (string * list Photo).

Fixpoint own (date : string) (groups : Groups) : option (list Photo) :=
  match groups with
  | [] => None
  | (d, ps) :: groups' => if String.eqb d date then Some ps else own date groups'
  end.

(** The property names an object literal inherits from [Object.prototype].
    Reading one of them yields a function (or the prototype itself), which is
    truthy and has no [push]. *)
Definition inherited : list string :=
  ["constructor"; "hasOwnProperty"; "isPrototypeOf"; "propertyIsEnumerable";
   "toLocaleString"; "toString"; "valueOf"; "__proto__";
   "__defineGetter__"; "__defineSetter__"; "__lookupGetter__";
   "__lookupSetter__"].

Definition is_inherited (date : string) : bool :=
  existsb (String.eqb date) inherited.

(** [groups[date].push(photo)] on an own property. *)
Fixpoint push (date : string) (photo : Photo) (groups : Groups) : Groups :=
  match groups with
  | [] => []
  | (d, ps) :: groups' =>
      if String.eqb d date then (d, ps ++ [photo]) :: groups'
      else (d, ps) :: push date photo groups'
  end.

(** Property keys that are array indices are enumerated first, by value. *)
Definition digit (c : ascii) : option N :=
  let n := N_of_ascii c in
  if ((48 <=? n) && (n <=? 57))%N then Some (n - 48)%N else None.

Fixpoint digits (s : string) (acc : N) : option N :=
  match s with
  | EmptyString => Some acc
  | String c s' =>
      match digit c with
      | Some d => digits s' (acc * 10 + d)%N
      | None => None
      end
  end.

Definition array_index (key : string) : option N :=
  match key with
  | EmptyString => None
  | String c rest =>
      if (Ascii.eqb c "0" && negb (String.eqb rest ""))%bool then None
      else match digits key 0 with
           | Some n => if (n <=? 4294967294)%N then Some n else None
           | None => None
           end
  end.

Definition is_array_index (key : string) : bool :=
  match array_index key with Some _ => true | None => false end.

Definition index_value (key : string) : N :=
  match array_index key with Some n => n | None => 0%N end.

Fixpoint insert_by_index {V} (e : string * V) (l : list (string * V))
  : list (string * V) :=
  match l with
  | [] => [e]
  | e' :: l' =>
      if (index_value (fst e) <=? index_value (fst e'))%N then e :: l
      else e' :: insert_by_index e l'
  end.

(** [Object.entries]: array-index keys in ascending order, then the other
    keys in creation order. *)
Definition Object_entries {V} (o : list (string * V)) : list (string * V) :=
  fold_right insert_by_index []
             (filter (fun e => is_array_index (fst e)) o)
  ++ filter (fun e => negb (is_array_index (fst e))) o.

(** [Array.prototype.sort(comparefn)]: [a] goes after [b] when
    [comparefn(a, b) > 0]; a [NaN] result counts as [0]; the sort is
    stable. *)
Definition goes_after {A} (comparefn : A -> A -> option Z) (a b : A) : bool :=
  match comparefn a b with
  | Some v => 0 <? v
  | None => false
  end.

Fixpoint sort_insert {A} (comparefn : A -> A -> option Z) (a : A) (l : list A)
  : list A :=
  match l with
  | [] => [a]
  | b :: l' =>
      if goes_after comparefn a b then b :: sort_insert comparefn a l'
      else a :: l
  end.

Definition Array_sort {A} (comparefn : A -> A -> option Z) (l : list A)
  : list A :=
  fold_right (sort_insert comparefn) [] l.

Section WithFormat.

(** [formatDate] lives in utils/format, outside the components modelled
    here, and is taken as a parameter, and so is
    [new Date(label).getTime()], whose [NaN] for a label that does not parse
    is [None].  Time values are
    integers of magnitude at most 8.64e15, so the sign of their binary64
    difference is the sign of the exact one. *)
Variable formatDate : string -> string.
Variable getTime : string -> option Z.

(** The callback of the [reduce]; [None] is the [TypeError] of calling a
    [push] that does not exist. *)
Definition group_step (groups : Groups) (photo : Photo) : option Groups :=
  let date := formatDate (uploadedAt photo) in
  match own date groups with
  | Some _ => Some (push date photo groups)
  | None =>
      if is_inherited date then None
      else Some (groups ++ [(date, [photo])])
  end.

Fixpoint reduce (photos : list Photo) (groups : Groups) : option Groups :=
  match photos with
  | [] => Some groups
  | photo :: photos' =>
      match group_step groups photo with
      | Some groups' => reduce photos' groups'
      | None => None
      end
  end.

Definition groupedPhotos (photos : list Photo) : option Groups :=
  reduce photos [].

(** [([a], [b]) => new Date(b).getTime() - new Date(a).getTime()] *)
Definition by_date_descending (a b : string * list Photo) : option Z :=
  match getTime (fst b), getTime (fst a) with
  | Some tb, Some ta => Some (tb - ta)
  | _, _ => None
  end.

(** The sequence of buckets that the grid renders. *)
Definition groupByDate (photos : list Photo) : option Groups :=
  match groupedPhotos photos with
  | Some groups => Some (Array_sort by_date_descending (Object_entries groups))
  | None => None
  end.

End WithFormat.

End Grouping.

(** ** Sample data *)

Module Sample.

Definition photo (i n day : string) : Photo :=
  mkPhoto i n "blob:u" "blob:u" 1024 "image/png" 640 480 day false [] None.

Definition P1 := photo "p1" "Beach.png" "2024-01-01".
Definition P2 := photo "p2" "Forest.png" "2024-01-01".
Definition P3 := photo "p3" "City.png" "2024-01-02".

(** A [formatDate] that shows the day as it is stored, and the time values
    of the two days of the sample. *)
Definition formatDate (s : string) : string := s.

Definition getTime (label : string) : option Z :=
  if String.eqb label "2024-01-01" then Some 1704067200000
  else if String.eqb label "2024-01-02" then Some 1704153600000
  else None.

(** The viewer after a zoom-in and a drag from (10, 10) to (30, 40). *)
Definition zoomed : Viewer.State :=
  Viewer.handleMouseUp
    (Viewer.handleMouseMove 30 40
       (Viewer.handleMouseDown 10 10 (Viewer.handleZoomIn Viewer.initial))).

End Sample.

(** ** App.tsx: what the sidebar and the grid are given *)

Module Library.

(** The [photoCount] and [favoriteCount] props of the sidebar. *)
Definition photoCount (photos : list Photo) : Z :=
  Z.of_nat (List.length photos).

Definition favoriteCount (photos : list Photo) : Z :=
  Z.of_nat (List.length (filter isFavorite photos)).

(** The [photos] prop of the grid and of the viewer. *)
Definition shown (toLowerCase : string -> string) (photos : list Photo)
           (searchQuery : string) (currentView : App.View) : list Photo :=
  App.displayPhotos currentView
                    (App.filteredPhotos toLowerCase photos searchQuery).

(** A run of [handlePhotoUpload] calls, one per batch. *)
Definition uploads (batches : list (list Photo)) (photos : list Photo)
  : list Photo :=
  fold_left (fun prev newPhotos => App.handlePhotoUpload newPhotos prev)
            batches photos.

End Library.

(** ** components/PhotoViewer.tsx: the events of the open viewer *)

Module ViewerEvents.

Inductive Event :=
| KeyDown (key : string)
| PreviousButton
| NextButton
| ZoomOutButton
| ZoomInButton
| InfoButton
| CloseButton
| MouseDown (clientX clientY : float)
| MouseMove (clientX clientY : float)
| MouseUp
| MouseLeave.

(** The [disabled] attributes of the two zoom buttons. *)
Definition zoomOutDisabled (st : Viewer.State) : bool :=
  PrimFloat.leb (Viewer.zoom st) 0.5.

Definition zoomInDisabled (st : Viewer.State) : bool :=
  PrimFloat.leb 5 (Viewer.zoom st).

Definition local (f : Viewer.State -> Viewer.State) (o : Viewer.Open)
  : option Viewer.Open :=
  Some (Viewer.mkOpen (Viewer.selectedPhoto o) (f (Viewer.view o))).

(** The [switch] of [handleKeyDown]; [None] is the closed viewer. *)
Definition handleKeyDown (displayPhotos : list Photo) (key : string)
           (o : Viewer.Open) : option Viewer.Open :=
  if String.eqb key "Escape" then None
  else if String.eqb key "ArrowLeft" then Viewer.previous displayPhotos o
  else if String.eqb key "ArrowRight" then Viewer.next displayPhotos o
  else if (String.eqb key "i" || String.eqb key "I")%bool
       then local Viewer.toggleInfo o
  else Some o.

(** One event on the viewer rendered for [displayPhotos].  The two arrow
    buttons exist only for more than one photo; a button that does not exist
    or is disabled does nothing. *)
Definition step (displayPhotos : list Photo) (e : Event) (o : Viewer.Open)
  : option Viewer.Open :=
  match e with
  | KeyDown key => handleKeyDown displayPhotos key o
  | PreviousButton =>
      if 1 <? Z.of_nat (List.length displayPhotos)
      then Viewer.previous displayPhotos o else Some o
  | NextButton =>
      if 1 <? Z.of_nat (List.length displayPhotos)
      then Viewer.next displayPhotos o else Some o
  | ZoomOutButton =>
      if zoomOutDisabled (Viewer.view o) then Some o
      else local Viewer.handleZoomOut o
  | ZoomInButton =>
      if zoomInDisabled (Viewer.view o) then Some o
      else local Viewer.handleZoomIn o
  | InfoButton => local Viewer.toggleInfo o
  | CloseButton => None
  | MouseDown clientX clientY => local (Viewer.handleMouseDown clientX clientY) o
  | MouseMove clientX clientY => local (Viewer.handleMouseMove clientX clientY) o
  | MouseUp => local Viewer.handleMouseUp o
  | MouseLeave => local Viewer.handleMouseUp o
  end.

(** A run of events, each with the display sequence of its render; the run
    ends when the viewer closes. *)
Fixpoint run (events : list (list Photo * Event)) (o : Viewer.Open)
  : option Viewer.Open :=
  match events with
  | [] => Some o
  | (displayPhotos, e) :: events' =>
      match step displayPhotos e o with
      | Some o' => run events' o'
      | None => None
      end
  end.

Definition is_zoom_in (e : Event) : bool :=
  match e with ZoomInButton => true | _ => false end.

(** The header's "[currentIndex + 1] of [photos.length]". *)
Definition currentIndex (photos : list Photo) (photo : Photo) : Z :=
  JS.findIndex (fun p => String.eqb (id p) (id photo)) photos.

Definition counter (photos : list Photo) (photo : Photo) : Z * Z :=
  (currentIndex photos photo + 1, Z.of_nat (List.length photos)).

End ViewerEvents.

(** ** components/UploadModal.tsx *)

Module Upload.

(** What the modal reads of a [File]. *)
Record File := mkFile {
  file_name : string;
  file_type : string;
  file_size : Z
}.

Definition isImage (file : File) : bool :=
  JS.startsWith (file_type file) "image/".

(** [arr.filter((_, i) => i !== index)] *)
Fixpoint without_index_from {A} (index : Z) (arr : list A) (i : Z) : list A :=
  match arr with
  | [] => []
  | a :: arr' =>
      if negb (i =? index) then a :: without_index_from index arr' (i + 1)
      else without_index_from index arr' (i + 1)
  end.

Definition without_index {A} (index : Z) (arr : list A) : list A :=
  without_index_from index arr 0.

Record State := mkState {
  dragActive : bool;
  selectedFiles : list File;
  uploading : bool;
  uploadProgress : Z
}.

Definition initial : State := mkState false [] false 0.

Definition handleDrag (type : string) (st : State) : State :=
  if (String.eqb type "dragenter" || String.eqb type "dragover")%bool
  then mkState true (selectedFiles st) (uploading st) (uploadProgress st)
  else if String.eqb type "dragleave"
  then mkState false (selectedFiles st) (uploading st) (uploadProgress st)
  else st.

Definition handleDrop (dropped : list File) (st : State) : State :=
  let files := filter isImage dropped in
  if 0 <? Z.of_nat (List.length files)
  then mkState false (selectedFiles st ++ files) (uploading st)
               (uploadProgress st)
  else mkState false (selectedFiles st) (uploading st) (uploadProgress st).

(** [e.target.files || []]: [None] is a missing file list. *)
Definition handleFileSelect (chosen : option (list File)) (st : State)
  : State :=
  let files :=
    filter isImage (match chosen with Some l => l | None => [] end) in
  if 0 <? Z.of_nat (List.length files)
  then mkState (dragActive st) (selectedFiles st ++ files) (uploading st)
               (uploadProgress st)
  else st.

Definition removeFile (index : Z) (st : State) : State :=
  mkState (dragActive st) (without_index index (selectedFiles st))
          (uploading st) (uploadProgress st).

Inductive Effect :=
| OnUpload (photos : list Photo)
| OnClose.

(** The updater of the progress timer. *)
Definition progressTick (st : State) : State :=
  mkState (dragActive st) (selectedFiles st) (uploading st)
          (if 90 <=? uploadProgress st then uploadProgress st
           else uploadProgress st + 10).

(** [handleUpload], in the three stretches between which other events can
    arrive: up to the [await], from the resolved promises to the timeout,
    and the timeout's callback.  [photos] is what [Promise.all] yields. *)
Definition uploadStart (st : State) : State :=
  if Z.of_nat (List.length (selectedFiles st)) =? 0 then st
  else mkState (dragActive st) (selectedFiles st) true 0.

Definition uploadResolved (photos : list Photo) (st : State)
  : State * list Effect :=
  (mkState (dragActive st) (selectedFiles st) (uploading st) 100,
   [OnUpload photos]).

Definition uploadTimeout (st : State) : State * list Effect :=
  (mkState (dragActive st) [] false 0, [OnClose]).

(** The [catch] branch of [handleUpload]. *)
Definition uploadFailed (st : State) : State :=
  mkState (dragActive st) (selectedFiles st) false 0.

Definition handleClose (st : State) : State * list Effect :=
  if negb (uploading st)
  then (mkState (dragActive st) [] (uploading st) 0, [OnClose])
  else (st, []).

(** The events of the open modal.  The remove buttons exist only while no
    upload runs; the upload button is disabled for an empty selection and
    during an upload; the file input is disabled during an upload. *)
Inductive Event :=
| Drag (type : string)
| Drop (dropped : list File)
| FileSelect (chosen : option (list File))
| RemoveFile (index : Z)
| UploadButton
| CloseButton
| Tick.

Definition step (e : Event) (st : State) : State * list Effect :=
  match e with
  | Drag type => (handleDrag type st, [])
  | Drop dropped => (handleDrop dropped st, [])
  | FileSelect chosen =>
      if uploading st then (st, []) else (handleFileSelect chosen st, [])
  | RemoveFile index =>
      if uploading st then (st, []) else (removeFile index st, [])
  | UploadButton =>
      if ((Z.of_nat (List.length (selectedFiles st)) =? 0) || uploading st)%bool
      then (st, []) else (uploadStart st, [])
  | CloseButton =>
      if uploading st then (st, []) else handleClose st
  | Tick => (progressTick st, [])
  end.

(** The states and the effects of a run of events of the controls. *)
Fixpoint run (events : list Event) (st : State) : State * list Effect :=
  match events with
  | [] => (st, [])
  | e :: events' =>
      let (st1, out1) := step e st in
      let (st2, out2) := run events' st1 in
      (st2, out1 ++ out2)
  end.

Inductive reachable : State -> Prop :=
| reachable_initial : reachable initial
| reachable_step e st :
    reachable st -> reachable (fst (step e st))
| reachable_resolved photos st :
    reachable st -> uploading st = true ->
    reachable (fst (uploadResolved photos st))
| reachable_timeout st :
    reachable st -> uploading st = true ->
    reachable (fst (uploadTimeout st))
| reachable_failed st :
    reachable st -> uploading st = true ->
    reachable (uploadFailed st).

End Upload.

(** The earlier version of the modal in the same file, which hands the
    files themselves to [onUpload] and awaits it. *)

Module UploadSimple.

Record State := mkState {
  isDragging : bool;
  isUploading : bool;
  selectedFiles : list Upload.File
}.

Definition initial : State := mkState false false [].

Inductive Effect :=
| OnUpload (files : list Upload.File)
| OnClose.

Definition handleDragOver (st : State) : State :=
  mkState true (isUploading st) (selectedFiles st).

Definition handleDragLeave (st : State) : State :=
  mkState false (isUploading st) (selectedFiles st).

Definition handleDrop (dropped : list Upload.File) (st : State) : State :=
  let files := filter Upload.isImage dropped in
  if 0 <? Z.of_nat (List.length files)
  then mkState false (isUploading st) files
  else mkState false (isUploading st) (selectedFiles st).

Definition handleFileSelect (chosen : option (list Upload.File)) (st : State)
  : State :=
  let files :=
    filter Upload.isImage (match chosen with Some l => l | None => [] end) in
  if 0 <? Z.of_nat (List.length files)
  then mkState (isDragging st) (isUploading st) files
  else st.

Definition removeFile (index : Z) (st : State) : State :=
  mkState (isDragging st) (isUploading st)
          (Upload.without_index index (selectedFiles st)).

(** [handleUpload] up to its [await], and after it: [fulfilled] tells
    whether the promise of [onUpload] was fulfilled or rejected. *)
Definition uploadStart (st : State) : State * list Effect :=
  if Z.of_nat (List.length (selectedFiles st)) =? 0 then (st, [])
  else (mkState (isDragging st) true (selectedFiles st),
        [OnUpload (selectedFiles st)]).

Definition uploadSettled (fulfilled : bool) (st : State)
  : State * list Effect :=
  if fulfilled
  then (mkState (isDragging st) false [], [OnClose])
  else (mkState (isDragging st) false (selectedFiles st), []).

Inductive Event :=
| DragOver
| DragLeave
| Drop (dropped : list Upload.File)
| FileSelect (chosen : option (list Upload.File))
| RemoveFile (index : Z)
| UploadButton
| Settled (fulfilled : bool)
| CloseButton.

(** The upload button is disabled for an empty selection and during an
    upload. *)
Definition step (e : Event) (st : State) : State * list Effect :=
  match e with
  | DragOver => (handleDragOver st, [])
  | DragLeave => (handleDragLeave st, [])
  | Drop dropped => (handleDrop dropped st, [])
  | FileSelect chosen => (handleFileSelect chosen st, [])
  | RemoveFile index => (removeFile index st, [])
  | UploadButton =>
      if ((Z.of_nat (List.length (selectedFiles st)) =? 0) || isUploading st)%bool
      then (st, []) else uploadStart st
  | Settled fulfilled => uploadSettled fulfilled st
  | CloseButton => (st, [OnClose])
  end.

(** The states and the effects of a run of events from the initial state. *)
Fixpoint run (events : list Event) (st : State) : State * list Effect :=
  match events with
  | [] => (st, [])
  | e :: events' =>
      let (st1, out1) := step e st in
      let (st2, out2) := run events' st1 in
      (st2, out1 ++ out2)
  end.

End UploadSimple.

(** ** Sample runs *)

Module Scenario.

(** In the viewer on the sample photos: zoom in twice, drag, step to the
    next photo, zoom out, toggle the info panel. *)
Definition viewing : list (list Photo * ViewerEvents.Event) :=
  map (fun e => ([Sample.P1; Sample.P2; Sample.P3], e))
      [ViewerEvents.ZoomInButton; ViewerEvents.ZoomInButton;
       ViewerEvents.MouseDown 100 100; ViewerEvents.MouseMove 130 90;
       ViewerEvents.MouseUp; ViewerEvents.KeyDown "ArrowRight";
       ViewerEvents.ZoomOutButton; ViewerEvents.KeyDown "i"].

(** The same without the zoom-in clicks. *)
Definition viewing_unzoomed : list (list Photo * ViewerEvents.Event) :=
  map (fun e => ([Sample.P1; Sample.P2; Sample.P3], e))
      [ViewerEvents.ZoomOutButton;
       ViewerEvents.MouseDown 100 100; ViewerEvents.MouseMove 130 90;
       ViewerEvents.MouseUp; ViewerEvents.KeyDown "ArrowRight";
       ViewerEvents.ZoomOutButton; ViewerEvents.KeyDown "i"].

Definition png : Upload.File := Upload.mkFile "a.png" "image/png" 2048.
Definition pdf : Upload.File := Upload.mkFile "b.pdf" "application/pdf" 4096.
Definition jpg : Upload.File := Upload.mkFile "c.jpg" "image/jpeg" 1024.

End Scenario.

(** ** Notions of the specification *)

(** [q] is a contiguous part of [s]. *)
Definition occurs (q s : string) : Prop :=
  exists before after : string, s = (before ++ q ++ after)%string.

(** [q] occurs in [s] when letter case is ignored, the case mapping being
    the host's: lower-cased, [q] is a contiguous part of [s]. *)
Definition occurs_ignoring_case (toLowerCase : string -> string)
           (q s : string) : Prop :=
  occurs (toLowerCase q) (toLowerCase s).

(** A photo matches a query by its name or by one of its tags. *)
Definition matches (toLowerCase : string -> string) (q : string) (p : Photo)
  : Prop :=
  occurs_ignoring_case toLowerCase q (name p) \/
  exists tag, In tag (tags p) /\ occurs_ignoring_case toLowerCase q tag.







(** [found] is what [photos.find(p => p.id === v)] yields: the first
    photo with the id [v], or nothing when no photo has that id. *)
Definition first_with_id (photos : list Photo) (v : string)
           (found : option Photo) : Prop :=
  match found with
  | Some p =>
      exists k, nth_error photos k = Some p /\ id p = v /\
                forall j b, (j < k)%nat -> nth_error photos j = Some b ->
                            id b <> v
  | None => ~ In v (map id photos)
  end.

(** [l1] is [l2] with some elements left out, the others in place. *)
Inductive Subsequence {A} : list A -> list A -> Prop :=
| Subsequence_nil : Subsequence [] []
| Subsequence_keep a l1 l2 : Subsequence l1 l2 -> Subsequence (a :: l1) (a :: l2)
| Subsequence_drop a l1 l2 : Subsequence l1 l2 -> Subsequence l1 (a :: l2).

(** The day of a bucket is not earlier than the day of a later one. *)
Definition not_earlier (getTime : string -> option Z)
           (a b : string * list Photo) : Prop :=
  match getTime (fst a), getTime (fst b) with
  | Some ta, Some tb => tb <= ta
  | _, _ => False
  end.

(** All fields but [isFavorite] agree. *)
Definition same_but_favorite (p p' : Photo) : Prop :=
  id p' = id p /\ name p' = name p /\ url p' = url p /\
  thumbnail p' = thumbnail p /\ size p' = size p /\ type p' = type p /\
  width p' = width p /\ height p' = height p /\
  uploadedAt p' = uploadedAt p /\ tags p' = tags p /\
  location p' = location p.

(** What the reset effect leaves after a navigation step from [o] to [r]. *)
Definition reset_when_changed (o r : Viewer.Open) : Prop :=
  (id (Viewer.selectedPhoto r) <> id (Viewer.selectedPhoto o) ->
   Viewer.zoom (Viewer.view r) = 1%float /\
   Viewer.position (Viewer.view r) = Viewer.origin) /\
  (id (Viewer.selectedPhoto r) = id (Viewer.selectedPhoto o) ->
   Viewer.view r = Viewer.view o).

(** What every state of a mounted grid satisfies. *)
Definition well_formed (st : Grid.State) : Prop :=
  NoDup (Grid.selectedPhotos st) /\
  (Grid.isSelectionMode st = true <-> Grid.selectedPhotos st <> []).

(** The photo [p] carries the label [d]. *)
Definition same_day (formatDate : string -> string) (d : string) (p : Photo)
  : bool :=
  String.eqb (formatDate (uploadedAt p)) d.

(** The label of a bucket parses as a date. *)
Definition parsed (getTime : string -> option Z) (e : string * list Photo)
  : Prop :=
  getTime (fst e) <> None.

(** The buckets [groups] hold the photos [done], each under its label and
    in the order of [done]. *)
Definition grouped (formatDate : string -> string)
           (groups : Grouping.Groups) (done : list Photo) : Prop :=
  NoDup (map fst groups) /\
  (forall d, Grouping.own d groups
             = match filter (same_day formatDate d) done with
               | [] => None
               | ps => Some ps
               end) /\
  Permutation (List.concat (map snd groups)) done.

(** Choose the disjunct that holds by computation. *)
Ltac pick_level := first [left; reflexivity | right; pick_level].

(** * Properties *)

(** ** The store: search and favorites *)

Section Strings.

Lemma startsWith_iff (s q : string) :
  JS.startsWith s q = true <-> exists r, s = (q ++ r)%string.
Proof.
  revert s; induction q as [|b q IH]; intros s.
  - split; [exists s; reflexivity | now destruct s].
  - destruct s as [|a s]; simpl.
    + split; [discriminate | intros [r H]; discriminate].
    + rewrite andb_true_iff, Ascii.eqb_eq, IH. split.
      * intros [-> [r ->]]. now exists r.
      * intros [r H]. injection H as -> ->. split; [reflexivity | now exists r].
Qed.

Lemma includes_iff (s q : string) :
  JS.includes s q = true <-> occurs q s.
Proof.
  unfold occurs.
  induction s as [|c s IH]; cbn [JS.includes];
    rewrite orb_true_iff, startsWith_iff.
  - split.
    + intros [[r H] | H]; [|discriminate]. now exists EmptyString, r.
    + intros (a & b & H). left.
      destruct a; simpl in H; [now exists b | discriminate].
  - rewrite IH. split.
    + intros [[r H] | (a & b & H)].
      * now exists EmptyString, r.
      * exists (String c a), b. simpl. now rewrite H.
    + intros (a & b & H). destruct a as [|d a]; simpl in H.
      * left. now exists b.
      * right. injection H as _ H. now exists a, b.
Qed.









Lemma search_matches (toLowerCase : string -> string) (q : string) (p : Photo) :
  JS.includes (toLowerCase (name p)) (toLowerCase q)
  || existsb (fun tag => JS.includes (toLowerCase tag) (toLowerCase q))
             (tags p) = true
  <-> matches toLowerCase q p.
Proof.
  unfold matches, occurs_ignoring_case.
  rewrite orb_true_iff, includes_iff, existsb_exists.
  split; (intros [H | (tag & Hin & H)]; [now left | right]);
    exists tag; (split; [assumption | now apply includes_iff]).
Qed.

End Strings.

Section Lists.

Context {A : Type}.

Lemma filter_Subsequence (f : A -> bool) (l : list A) :
  Subsequence (filter f l) l.
Proof.
  induction l as [|a l IH]; simpl; [constructor|].
  destruct (f a); now constructor.
Qed.


End Lists.



Lemma toggleFavorite_nth (photoId : string) (photos : list Photo) (i : nat) :
  nth_error (App.toggleFavorite photoId photos) i =
  option_map (fun photo =>
                if String.eqb (id photo) photoId
                then with_isFavorite photo (negb (isFavorite photo))
                else photo)
             (nth_error photos i).
Proof. unfold App.toggleFavorite. apply nth_error_map. Qed.

Lemma with_isFavorite_same (p : Photo) : with_isFavorite p (isFavorite p) = p.
Proof. now destruct p. Qed.

(** C9: [toggleFavorite] keeps the collection's length and order, negates
    [isFavorite] in the records with the given id and changes no other field
    and no other record; for an id that no record has the collection is
    unchanged; applied twice it gives back the collection. *)
Theorem toggleFavorite_spec (photoId : string) (photos : list Photo) :
  List.length (App.toggleFavorite photoId photos) = List.length photos /\
  (forall i p,
      nth_error photos i = Some p ->
      exists p',
        nth_error (App.toggleFavorite photoId photos) i = Some p' /\
        same_but_favorite p p' /\
        isFavorite p' = (if String.eqb (id p) photoId
                         then negb (isFavorite p) else isFavorite p)) /\
  (~ In photoId (map id photos) -> App.toggleFavorite photoId photos = photos) /\
  App.toggleFavorite photoId (App.toggleFavorite photoId photos) = photos.
Proof.
  repeat split.
  - apply length_map.
  - intros i p H. rewrite toggleFavorite_nth, H. simpl.
    eexists; split; [reflexivity|].
    destruct (String.eqb (id p) photoId); simpl;
      unfold same_but_favorite; simpl; auto 15.
  - intros H. unfold App.toggleFavorite.
    rewrite <- (map_id photos) at 2. apply map_ext_in.
    intros p Hp. destruct (String.eqb_spec (id p) photoId) as [E|E]; [|reflexivity].
    exfalso. apply H. rewrite <- E. now apply in_map.
  - unfold App.toggleFavorite. rewrite map_map.
    rewrite <- (map_id photos) at 2. apply map_ext.
    intros p. destruct (String.eqb (id p) photoId) eqn:E; simpl.
    + rewrite E. destruct p; simpl. now rewrite negb_involutive.
    + now rewrite E.
Qed.

(** An id that no sample photo has, and a double toggle of the first
    sample photo. *)
Lemma toggleFavorite_spec_witness :
  ~ In "p9" (map id [Sample.P1; Sample.P2]) /\
  App.toggleFavorite "p9" [Sample.P1; Sample.P2] = [Sample.P1; Sample.P2] /\
  App.toggleFavorite "p1" (App.toggleFavorite "p1" [Sample.P1; Sample.P2])
  = [Sample.P1; Sample.P2].
Proof.
  assert (H : ~ In "p9" (map id [Sample.P1; Sample.P2])).
  { simpl. intros [H | [H | []]]; discriminate. }
  split; [exact H|]. split.
  - exact (proj1 (proj2 (proj2 (toggleFavorite_spec "p9" [Sample.P1; Sample.P2]))) H).
  - exact (proj2 (proj2 (proj2 (toggleFavorite_spec "p1" [Sample.P1; Sample.P2])))).
Defined.

(** ** The viewer: navigation *)

Section FindIndex.

Context {A : Type} (f : A -> bool).

Lemma findIndex_from_none (l : list A) (i : Z) :
  (forall a, In a l -> f a = false) -> JS.findIndex_from f l i = -1.
Proof.
  revert i; induction l as [|a l IH]; intros i H; simpl; [reflexivity|].
  rewrite (H a (or_introl eq_refl)). apply IH. intros b Hb. apply H. now right.
Qed.

Lemma findIndex_from_at (l : list A) (i : Z) (k : nat) (a : A) :
  nth_error l k = Some a -> f a = true ->
  (forall j b, (j < k)%nat -> nth_error l j = Some b -> f b = false) ->
  JS.findIndex_from f l i = i + Z.of_nat k.
Proof.
  revert i k; induction l as [|b l IH]; intros i k Hk Ha Hlt.
  - destruct k; discriminate.
  - destruct k as [|k]; simpl in *.
    + injection Hk as ->. rewrite Ha. lia.
    + rewrite (Hlt 0%nat b) by (simpl; auto; lia).
      rewrite (IH (i + 1) k Hk Ha); [lia|].
      intros j c Hj Hc. apply (Hlt (S j) c); [lia | exact Hc].
Qed.

Lemma first_match (l : list A) :
  (exists a, In a l /\ f a = true) ->
  exists k a, nth_error l k = Some a /\ f a = true /\
              forall j b, (j < k)%nat -> nth_error l j = Some b -> f b = false.
Proof.
  induction l as [|b l IH]; intros (a & Hin & Ha); [destruct Hin|].
  destruct (f b) eqn:Hb.
  - exists 0%nat, b. repeat split; auto. intros j c Hj. lia.
  - destruct Hin as [-> | Hin]; [congruence|].
    destruct IH as (k & c & Hk & Hc & Hlt); [now exists a|].
    exists (S k), c. repeat split; auto.
    intros [|j] d Hj Hd; simpl in Hd.
    + now injection Hd as <-.
    + apply (Hlt j d); [lia | exact Hd].
Qed.

Lemma findIndex_found (l : list A) :
  (exists a, In a l /\ f a = true) ->
  exists k a, JS.findIndex f l = Z.of_nat k /\
              nth_error l k = Some a /\ f a = true.
Proof.
  intros H. destruct (first_match l H) as (k & a & Hk & Ha & Hlt).
  exists k, a. repeat split; auto.
  unfold JS.findIndex. now rewrite (findIndex_from_at l 0 k a).
Qed.

Lemma find_first (l : list A) (a : A) :
  find f l = Some a ->
  exists k, nth_error l k = Some a /\ f a = true /\
            forall j b, (j < k)%nat -> nth_error l j = Some b -> f b = false.
Proof.
  induction l as [|c l IH]; simpl; [discriminate|].
  destruct (f c) eqn:Hc.
  - intros H. injection H as <-. exists 0%nat. repeat split; auto.
    intros j b Hj. lia.
  - intros H. destruct (IH H) as (k & Hk & Ha & Hlt).
    exists (S k). repeat split; auto.
    intros [|j] b Hj Hb; simpl in Hb.
    + now injection Hb as <-.
    + apply (Hlt j b); [lia | exact Hb].
Qed.

Lemma findIndex_first (l : list A) :
  (exists a, In a l /\ f a = true) ->
  exists k a, JS.findIndex f l = Z.of_nat k /\
              nth_error l k = Some a /\ f a = true /\
              forall j b, (j < k)%nat -> nth_error l j = Some b -> f b = false.
Proof.
  intros H. destruct (first_match l H) as (k & a & Hk & Ha & Hlt).
  exists k, a. repeat split; auto.
  unfold JS.findIndex. now rewrite (findIndex_from_at l 0 k a).
Qed.

End FindIndex.

(** What [photos.find] yields for an id. *)
Lemma find_first_with_id (photos : list Photo) (v : string) :
  first_with_id photos v (find (fun p => String.eqb (id p) v) photos).
Proof.
  unfold first_with_id. destruct (find _ photos) as [p|] eqn:F.
  - destruct (find_first _ photos p F) as (k & Hk & Hp & Hlt).
    exists k. split; [exact Hk|]. split; [now apply String.eqb_eq|].
    intros j b Hj Hb. apply String.eqb_neq. exact (Hlt j b Hj Hb).
  - intros Hin. apply in_map_iff in Hin as (p & E & Hp).
    apply (find_none _ _ F) in Hp. apply String.eqb_neq in Hp. contradiction.
Qed.

Lemma at_index_nat {A} (l : list A) (k : nat) :
  JS.at_index l (Some (Z.of_nat k)) = nth_error l k.
Proof.
  unfold JS.at_index. destruct (Z.ltb_spec (Z.of_nat k) 0); [lia|].
  now rewrite Nat2Z.id.
Qed.

Lemma same_id_present (photos : list Photo) (current : Photo) :
  In (id current) (map id photos) ->
  exists a, In a photos /\ String.eqb (id a) (id current) = true.
Proof.
  intros H. apply in_map_iff in H as (a & Ha & Hin).
  exists a. split; [assumption | now apply String.eqb_eq].
Qed.

(** With distinct ids, the photo at a position is found at that position. *)
Lemma findIndex_unique (photos : list Photo) (k : nat) (p : Photo) :
  NoDup (map id photos) -> nth_error photos k = Some p ->
  JS.findIndex (fun a => String.eqb (id a) (id p)) photos = Z.of_nat k.
Proof.
  intros Hnd Hk. unfold JS.findIndex.
  rewrite (findIndex_from_at _ photos 0 k p Hk (String.eqb_refl _)); [lia|].
  intros j b Hj Hb. apply String.eqb_neq. intros E.
  assert (Hj' : (j < List.length (map id photos))%nat).
  { rewrite length_map. apply nth_error_Some. congruence. }
  assert (j = k); [|lia].
  apply (proj1 (NoDup_nth_error (map id photos)) Hnd j k Hj').
  now rewrite !nth_error_map, Hb, Hk; simpl; rewrite E.
Qed.

Lemma onNext_at (photos : list Photo) (current : Photo) (k : nat) :
  JS.findIndex (fun a => String.eqb (id a) (id current)) photos = Z.of_nat k ->
  (k < List.length photos)%nat ->
  App.onNext photos current =
  nth_error photos (if (S k =? List.length photos)%nat then 0%nat else S k).
Proof.
  intros Hi Hk. unfold App.onNext, JS.rem. rewrite Hi.
  destruct (Z.eqb_spec (Z.of_nat (List.length photos)) 0); [lia|].
  rewrite Z.rem_mod_nonneg by lia.
  destruct (Nat.eqb_spec (S k) (List.length photos)) as [E|E].
  - replace (Z.of_nat k + 1) with (Z.of_nat (List.length photos)) by lia.
    rewrite Z_mod_same_full. apply (at_index_nat photos 0).
  - rewrite Z.mod_small by lia.
    replace (Z.of_nat k + 1) with (Z.of_nat (S k)) by lia.
    apply at_index_nat.
Qed.

Lemma onPrevious_at (photos : list Photo) (current : Photo) (k : nat) :
  JS.findIndex (fun a => String.eqb (id a) (id current)) photos = Z.of_nat k ->
  (k < List.length photos)%nat ->
  App.onPrevious photos current =
  nth_error photos (if (k =? 0)%nat then List.length photos - 1 else k - 1)%nat.
Proof.
  intros Hi Hk. unfold App.onPrevious. rewrite Hi.
  destruct (Nat.eqb_spec k 0) as [->|E].
  - change (Z.of_nat 0 =? 0) with true. cbv iota.
    replace (Z.of_nat (List.length photos) - 1)
      with (Z.of_nat (List.length photos - 1)) by lia.
    apply at_index_nat.
  - destruct (Z.eqb_spec (Z.of_nat k) 0); [lia|].
    replace (Z.of_nat k - 1) with (Z.of_nat (k - 1)) by lia.
    apply at_index_nat.
Qed.

Lemma current_position (photos : list Photo) (current : Photo) :
  In (id current) (map id photos) ->
  exists k c,
    JS.findIndex (fun a => String.eqb (id a) (id current)) photos = Z.of_nat k /\
    nth_error photos k = Some c /\ id c = id current /\
    (k < List.length photos)%nat.
Proof.
  intros H. apply same_id_present in H.
  destruct (findIndex_found _ photos H) as (k & c & Hi & Hk & Hc).
  exists k, c. repeat split; auto.
  - now apply String.eqb_eq.
  - apply nth_error_Some. congruence.
Qed.

Lemma nth_error_in_range {A} (l : list A) (k : nat) :
  (k < List.length l)%nat -> exists a, nth_error l k = Some a.
Proof.
  intros H. destruct (nth_error l k) eqn:E; [now eexists|].
  apply nth_error_None in E. lia.
Qed.

(** With distinct ids, [onPrevious] undoes [onNext] and [onNext] undoes
    [onPrevious]: both lead back to the photo of the sequence that has the
    current id. *)
Lemma next_previous_roundtrip (photos : list Photo) (current : Photo) :
  In (id current) (map id photos) -> NoDup (map id photos) ->
  (exists p q, App.onNext photos current = Some p /\
               App.onPrevious photos p = Some q /\ id q = id current) /\
  (exists p q, App.onPrevious photos current = Some p /\
               App.onNext photos p = Some q /\ id q = id current).
Proof.
  intros Hin Hnd.
  destruct (current_position photos current Hin) as (k & c & Hi & Hk & Hc & Hlt).
  split.
  - rewrite (onNext_at photos current k Hi Hlt).
    set (k' := if (S k =? List.length photos)%nat then 0%nat else S k).
    assert (Hlt' : (k' < List.length photos)%nat).
    { subst k'. destruct (Nat.eqb_spec (S k) (List.length photos)); lia. }
    destruct (nth_error_in_range photos k' Hlt') as [p Hp].
    exists p, c. repeat split; auto.
    rewrite (onPrevious_at photos p k' (findIndex_unique photos k' p Hnd Hp) Hlt').
    rewrite <- Hk. f_equal. subst k'.
    destruct (Nat.eqb_spec (S k) (List.length photos)); simpl; lia.
  - rewrite (onPrevious_at photos current k Hi Hlt).
    set (k' := (if (k =? 0)%nat then List.length photos - 1 else k - 1)%nat).
    assert (Hlt' : (k' < List.length photos)%nat).
    { subst k'. destruct (Nat.eqb_spec k 0); lia. }
    destruct (nth_error_in_range photos k' Hlt') as [p Hp].
    exists p, c. repeat split; auto.
    rewrite (onNext_at photos p k' (findIndex_unique photos k' p Hnd Hp) Hlt').
    rewrite <- Hk. f_equal. subst k'.
    destruct (Nat.eqb_spec k 0) as [->|E].
    + destruct (Nat.eqb_spec (S (List.length photos - 1)) (List.length photos)); lia.
    + destruct (Nat.eqb_spec (S (k - 1)) (List.length photos)); lia.
Qed.

(** In a sequence of one photo, both callbacks yield that photo. *)
Lemma single_photo_navigation (photos : list Photo) (current : Photo) :
  In (id current) (map id photos) -> List.length photos = 1%nat ->
  exists p, photos = [p] /\ id p = id current /\
            App.onNext photos current = Some p /\
            App.onPrevious photos current = Some p.
Proof.
  intros Hin Hlen.
  destruct photos as [|p [|]]; try discriminate.
  simpl in Hin. destruct Hin as [E | []].
  exists p. unfold App.onNext, App.onPrevious, JS.findIndex. simpl.
  rewrite E, String.eqb_refl. auto.
Qed.

(** For a non-empty sequence holding the current id, both callbacks
    select a photo. *)
Lemma navigation_defined (photos : list Photo) (current : Photo) :
  In (id current) (map id photos) ->
  exists p q, App.onNext photos current = Some p /\
              App.onPrevious photos current = Some q.
Proof.
  intros Hin.
  destruct (current_position photos current Hin) as (k & c & Hi & Hk & Hc & Hlt).
  rewrite (onNext_at photos current k Hi Hlt),
          (onPrevious_at photos current k Hi Hlt).
  destruct (nth_error_in_range photos
              (if (S k =? List.length photos)%nat then 0%nat else S k))
    as [p Hp].
  { destruct (Nat.eqb_spec (S k) (List.length photos)); lia. }
  destruct (nth_error_in_range photos
              (if (k =? 0)%nat then List.length photos - 1 else k - 1)%nat)
    as [q Hq].
  { destruct (Nat.eqb_spec k 0); lia. }
  now exists p, q.
Qed.

(** C1: for a non-empty display sequence that holds a photo with the
    current id at index [i] (the index [findIndex] finds), [onNext] selects
    the photo at index [(i + 1) mod length] and [onPrevious] the one at
    [length - 1] if [i = 0] and at [i - 1] otherwise.  With the ids of the
    sequence distinct, as the data model has them, next then previous and
    previous then next lead back to the current id; in a sequence of length
    one both select the photo with the current id, which is the current photo
    itself when that belongs to the sequence. *)
Theorem next_previous_spec (displayPhotos : list Photo) (current : Photo) :
  displayPhotos <> [] ->
  In (id current) (map id displayPhotos) ->
  let n := Z.of_nat (List.length displayPhotos) in
  let i := JS.findIndex (fun p => String.eqb (id p) (id current)) displayPhotos in
  (0 <= i < n /\
   exists c, JS.at_index displayPhotos (Some i) = Some c /\ id c = id current) /\
  (exists p, App.onNext displayPhotos current = Some p /\
             JS.at_index displayPhotos (Some ((i + 1) mod n)) = Some p) /\
  (exists p, App.onPrevious displayPhotos current = Some p /\
             JS.at_index displayPhotos
               (Some (if i =? 0 then n - 1 else i - 1)) = Some p) /\
  (NoDup (map id displayPhotos) ->
   (exists p q, App.onNext displayPhotos current = Some p /\
                App.onPrevious displayPhotos p = Some q /\
                id q = id current) /\
   (exists p q, App.onPrevious displayPhotos current = Some p /\
                App.onNext displayPhotos p = Some q /\
                id q = id current)) /\
  (n = 1 ->
   exists p, App.onNext displayPhotos current = Some p /\
             App.onPrevious displayPhotos current = Some p /\
             id p = id current /\
             (In current displayPhotos -> p = current)).
Proof.
  intros Hne Hin n i.
  destruct (current_position displayPhotos current Hin)
    as (k & c & Hi & Hk & Hc & Hlt).
  fold i in Hi.
  repeat split.
  - lia.
  - lia.
  - exists c. now rewrite Hi, at_index_nat.
  - assert (E : App.onNext displayPhotos current
                = JS.at_index displayPhotos (Some ((i + 1) mod n))).
    { unfold App.onNext, JS.rem. fold i n.
      destruct (Z.eqb_spec n 0); [lia|].
      now rewrite Z.rem_mod_nonneg by lia. }
    rewrite <- E, (onNext_at displayPhotos current k Hi Hlt).
    destruct (nth_error_in_range displayPhotos
                (if (S k =? List.length displayPhotos)%nat then 0%nat else S k))
      as [p Hp].
    { destruct (Nat.eqb_spec (S k) (List.length displayPhotos)); lia. }
    now exists p.
  - assert (E : App.onPrevious displayPhotos current
                = JS.at_index displayPhotos
                    (Some (if i =? 0 then n - 1 else i - 1))) by reflexivity.
    rewrite <- E, (onPrevious_at displayPhotos current k Hi Hlt).
    destruct (nth_error_in_range displayPhotos
                (if (k =? 0)%nat then List.length displayPhotos - 1 else k - 1)%nat)
      as [p Hp].
    { destruct (Nat.eqb_spec k 0); lia. }
    now exists p.
  - now apply next_previous_roundtrip.
  - now apply next_previous_roundtrip.
  - intros Hn.
    destruct (single_photo_navigation displayPhotos current Hin)
      as (p & Hl & Hp & Hnext & Hprev); [lia|].
    exists p. repeat split; auto.
    rewrite Hl. intros [E | []]. exact E.
Qed.

(** The sample sequence with the viewer on its last photo: next wraps to
    the first, and previous leads back. *)
Lemma next_previous_spec_witness :
  App.onNext [Sample.P1; Sample.P2; Sample.P3] Sample.P3 = Some Sample.P1 /\
  App.onPrevious [Sample.P1; Sample.P2; Sample.P3] Sample.P1 = Some Sample.P3 /\
  exists p q,
    App.onNext [Sample.P1; Sample.P2; Sample.P3] Sample.P3 = Some p /\
    App.onPrevious [Sample.P1; Sample.P2; Sample.P3] p = Some q /\
    id q = id Sample.P3.
Proof.
  split; [reflexivity|]. split; [reflexivity|].
  assert (Hne : [Sample.P1; Sample.P2; Sample.P3] <> []) by discriminate.
  assert (Hin : In (id Sample.P3) (map id [Sample.P1; Sample.P2; Sample.P3])).
  { simpl. auto. }
  assert (Hnd : NoDup (map id [Sample.P1; Sample.P2; Sample.P3])).
  { simpl. repeat constructor; simpl; intuition discriminate. }
  exact (proj1 (proj1 (proj2 (proj2 (proj2
           (next_previous_spec _ Sample.P3 Hne Hin)))) Hnd)).
Defined.



(** ** The viewer: zoom and pan *)

Lemma distinct_positions (photos : list Photo) (j k : nat) (a b : Photo) :
  NoDup (map id photos) ->
  nth_error photos j = Some a -> nth_error photos k = Some b ->
  id a = id b -> j = k.
Proof.
  intros Hnd Hj Hk E.
  apply (proj1 (NoDup_nth_error (map id photos)) Hnd j k).
  - rewrite length_map. apply nth_error_Some. congruence.
  - now rewrite !nth_error_map, Hj, Hk; simpl; rewrite E.
Qed.

(** With distinct ids and at least two photos, both callbacks select a
    photo with another id. *)
Lemma navigation_changes_id (photos : list Photo) (current : Photo) :
  In (id current) (map id photos) -> NoDup (map id photos) ->
  (1 < List.length photos)%nat ->
  (forall p, App.onNext photos current = Some p -> id p <> id current) /\
  (forall p, App.onPrevious photos current = Some p -> id p <> id current).
Proof.
  intros Hin Hnd Hlen.
  destruct (current_position photos current Hin) as (k & c & Hi & Hk & Hc & Hlt).
  split; intros p Hp E; rewrite <- Hc in E.
  - rewrite (onNext_at photos current k Hi Hlt) in Hp.
    pose proof (distinct_positions photos _ k p c Hnd Hp Hk E) as H.
    destruct (Nat.eqb_spec (S k) (List.length photos)); lia.
  - rewrite (onPrevious_at photos current k Hi Hlt) in Hp.
    pose proof (distinct_positions photos _ k p c Hnd Hp Hk E) as H.
    destruct (Nat.eqb_spec k 0); lia.
Qed.

Lemma resetEffect_changed (a b : string) (st : Viewer.State) :
  a <> b ->
  Viewer.zoom (Viewer.resetEffect a b st) = 1%float /\
  Viewer.position (Viewer.resetEffect a b st) = Viewer.origin.
Proof.
  intros H. unfold Viewer.resetEffect.
  destruct (String.eqb_spec a b); [contradiction | now split].
Qed.

Lemma resetEffect_same (a b : string) (st : Viewer.State) :
  a = b -> Viewer.resetEffect a b st = st.
Proof.
  intros ->. unfold Viewer.resetEffect. now rewrite String.eqb_refl.
Qed.

Lemma setSelectedPhoto_reset (p : Photo) (o : Viewer.Open) :
  exists r,
    Viewer.setSelectedPhoto (Some p) o = Some r /\
    Viewer.selectedPhoto r = p /\
    (id p <> id (Viewer.selectedPhoto o) ->
     Viewer.zoom (Viewer.view r) = 1%float /\
     Viewer.position (Viewer.view r) = Viewer.origin) /\
    (id p = id (Viewer.selectedPhoto o) -> Viewer.view r = Viewer.view o).
Proof.
  eexists. split; [reflexivity|]. simpl. repeat split.
  - apply resetEffect_changed; auto.
  - apply resetEffect_changed; auto.
  - intros E. now apply resetEffect_same.
Qed.

(** C2, as the code has it: for a non-empty display sequence holding the
    current id, next and previous keep the viewer open; a step to a photo
    with another id leaves zoom [1] and pan [(0, 0)], a step to a photo with
    the same id leaves zoom, pan and the other cells of the viewer as they
    were.  With distinct ids and at least two photos a step always changes
    the id; in a sequence of one photo it never does. *)
Theorem next_previous_reset (displayPhotos : list Photo) (o : Viewer.Open) :
  displayPhotos <> [] ->
  In (id (Viewer.selectedPhoto o)) (map id displayPhotos) ->
  exists a b,
    Viewer.next displayPhotos o = Some a /\
    Viewer.previous displayPhotos o = Some b /\
    reset_when_changed o a /\
    reset_when_changed o b /\
    (NoDup (map id displayPhotos) -> (1 < List.length displayPhotos)%nat ->
     id (Viewer.selectedPhoto a) <> id (Viewer.selectedPhoto o) /\
     id (Viewer.selectedPhoto b) <> id (Viewer.selectedPhoto o)) /\
    (List.length displayPhotos = 1%nat ->
     id (Viewer.selectedPhoto a) = id (Viewer.selectedPhoto o) /\
     id (Viewer.selectedPhoto b) = id (Viewer.selectedPhoto o) /\
     Viewer.view a = Viewer.view o /\ Viewer.view b = Viewer.view o).
Proof.
  intros Hne Hin.
  destruct (navigation_defined displayPhotos (Viewer.selectedPhoto o) Hin)
    as (p & q & Hp & Hq).
  destruct (setSelectedPhoto_reset p o) as (a & Ha & Hap & Hachg & Hasame).
  destruct (setSelectedPhoto_reset q o) as (b & Hb & Hbq & Hbchg & Hbsame).
  exists a, b. unfold Viewer.next, Viewer.previous, reset_when_changed.
  rewrite Hp, Hq, Hap, Hbq.
  split; [exact Ha|]. split; [exact Hb|].
  split; [now split|]. split; [now split|]. split.
  - intros Hnd Hlen.
    destruct (navigation_changes_id _ _ Hin Hnd Hlen) as [Hn Hv]. auto.
  - intros Hlen.
    destruct (single_photo_navigation _ _ Hin Hlen) as (s & _ & Hs & Hn & Hv).
    assert (Ep : id p = id (Viewer.selectedPhoto o)) by congruence.
    assert (Eq : id q = id (Viewer.selectedPhoto o)) by congruence.
    auto.
Qed.

(** The sample sequence, from its second photo with the viewer zoomed and
    panned: both steps reset the zoom. *)
Lemma next_previous_reset_witness :
  exists a b,
    Viewer.next [Sample.P1; Sample.P2; Sample.P3]
                (Viewer.mkOpen Sample.P2 Sample.zoomed) = Some a /\
    Viewer.previous [Sample.P1; Sample.P2; Sample.P3]
                    (Viewer.mkOpen Sample.P2 Sample.zoomed) = Some b /\
    Viewer.zoom (Viewer.view a) = 1%float /\
    Viewer.zoom (Viewer.view b) = 1%float.
Proof.
  assert (Hne : [Sample.P1; Sample.P2; Sample.P3] <> []) by discriminate.
  assert (Hin : In (id Sample.P2) (map id [Sample.P1; Sample.P2; Sample.P3])).
  { simpl. auto. }
  assert (Hnd : NoDup (map id [Sample.P1; Sample.P2; Sample.P3])).
  { simpl. repeat constructor; simpl; intuition discriminate. }
  assert (Hlen : (1 < List.length [Sample.P1; Sample.P2; Sample.P3])%nat).
  { simpl. lia. }
  destruct (next_previous_reset [Sample.P1; Sample.P2; Sample.P3]
              (Viewer.mkOpen Sample.P2 Sample.zoomed) Hne Hin)
    as (a & b & Ha & Hb & Hra & Hrb & Hchg & _).
  destruct (Hchg Hnd Hlen) as [Hca Hcb].
  exists a, b. repeat split; auto.
  - exact (proj1 (proj1 Hra Hca)).
  - exact (proj1 (proj1 Hrb Hcb)).
Defined.

(** Two numbers that [==] tells apart are different. *)
Lemma float_neq (a b : float) :
  PrimFloat.eqb a b = false -> PrimFloat.eqb b b = true -> a <> b.
Proof. intros H1 H2 E. subst a. congruence. Qed.

(** C2, refuted as stated: with the single photo [P1] displayed and the
    viewer zoomed to 1.5 and panned to (20, 30), next and previous leave the
    viewer exactly as it is, zoom and pan included. *)
Lemma single_photo_keeps_zoom :
  Viewer.next [Sample.P1] (Viewer.mkOpen Sample.P1 Sample.zoomed)
  = Some (Viewer.mkOpen Sample.P1 Sample.zoomed) /\
  Viewer.previous [Sample.P1] (Viewer.mkOpen Sample.P1 Sample.zoomed)
  = Some (Viewer.mkOpen Sample.P1 Sample.zoomed) /\
  Viewer.zoom Sample.zoomed = 1.5%float /\
  Viewer.position Sample.zoomed = Viewer.mkPoint 20 30 /\
  Viewer.zoom Sample.zoomed <> 1%float /\
  Viewer.position Sample.zoomed <> Viewer.origin.
Proof.
  repeat split; try reflexivity.
  - now apply float_neq.
  - intros E. apply (f_equal Viewer.x) in E. revert E. now apply float_neq.
Qed.

Section Zoom.

Local Open Scope float_scope.

(** The zoom levels are closed under both zoom steps. *)
Lemma zoom_levels_closed (z : float) :
  In z Viewer.zoom_levels ->
  In (JS.Math_min (z * 1.5) 5) Viewer.zoom_levels /\
  In (JS.Math_max (z / 1.5) 0.5) Viewer.zoom_levels.
Proof.
  unfold Viewer.zoom_levels. intros H.
  repeat (destruct H as [<- | H];
          [split; vm_compute; pick_level|]).
  destruct H.
Qed.

Lemma zoom_levels_bounded (z : float) :
  In z Viewer.zoom_levels -> (0.5 <=? z) = true /\ (z <=? 5) = true.
Proof.
  unfold Viewer.zoom_levels. intros H.
  repeat (destruct H as [<- | H]; [split; reflexivity|]).
  destruct H.
Qed.

Lemma zoomCalls_levels (cs : list Viewer.ZoomCall) (st : Viewer.State) :
  In (Viewer.zoom st) Viewer.zoom_levels ->
  In (Viewer.zoom (Viewer.zoomCalls cs st)) Viewer.zoom_levels.
Proof.
  revert st; induction cs as [|c cs IH]; intros st H; [exact H|].
  apply IH. destruct (zoom_levels_closed _ H) as [Hin Hout].
  destruct c; assumption.
Qed.

(** C3: zooming in sets [zoom] to [min(zoom * 1.5, 5)], zooming out to
    [max(zoom / 1.5, 0.5)]; from the initial zoom [1], after any finite
    sequence of the two, [0.5 <= zoom <= 5] in binary64 arithmetic. *)
Theorem zoom_within_bounds (cs : list Viewer.ZoomCall) :
  (forall st, Viewer.zoom (Viewer.handleZoomIn st)
              = JS.Math_min (Viewer.zoom st * 1.5) 5) /\
  (forall st, Viewer.zoom (Viewer.handleZoomOut st)
              = JS.Math_max (Viewer.zoom st / 1.5) 0.5) /\
  Viewer.zoom Viewer.initial = 1 /\
  (0.5 <=? Viewer.zoom (Viewer.zoomCalls cs Viewer.initial)) = true /\
  (Viewer.zoom (Viewer.zoomCalls cs Viewer.initial) <=? 5) = true.
Proof.
  split; [reflexivity|]. split; [reflexivity|]. split; [reflexivity|].
  apply zoom_levels_bounded, zoomCalls_levels. now left.
Qed.

End Zoom.

(** ** The grid: selection *)

Section Sets.

Lemma Set_has_In (s : JS.StringSet) (v : string) :
  JS.Set_has s v = true <-> In v s.
Proof.
  unfold JS.Set_has. rewrite existsb_exists. split.
  - intros (w & Hw & E). apply String.eqb_eq in E. now subst.
  - intros H. exists v. split; [assumption | apply String.eqb_refl].
Qed.

Lemma Set_has_app (s t : JS.StringSet) (v : string) :
  JS.Set_has (s ++ t) v = JS.Set_has s v || JS.Set_has t v.
Proof. apply existsb_app. Qed.

Lemma Set_has_add (s : JS.StringSet) (w v : string) :
  JS.Set_has (JS.Set_add s w) v = JS.Set_has s v || String.eqb v w.
Proof.
  unfold JS.Set_add. destruct (JS.Set_has s w) eqn:Hw.
  - destruct (String.eqb_spec v w) as [->|_].
    + now rewrite Hw.
    + now rewrite orb_false_r.
  - rewrite Set_has_app. simpl. now rewrite orb_false_r.
Qed.

Lemma Set_has_delete (s : JS.StringSet) (w v : string) :
  JS.Set_has (JS.Set_delete s w) v = JS.Set_has s v && negb (String.eqb v w).
Proof.
  unfold JS.Set_delete, JS.Set_has.
  induction s as [|u s IH]; simpl; [reflexivity|].
  destruct (String.eqb_spec u w) as [->|Hu]; simpl.
  - rewrite IH. destruct (String.eqb_spec v w); simpl.
    + now rewrite andb_false_r.
    + reflexivity.
  - rewrite IH. destruct (String.eqb_spec v u) as [->|Hv]; simpl.
    + destruct (String.eqb_spec u w); [contradiction | reflexivity].
    + reflexivity.
Qed.

Lemma NoDup_Set_add (s : JS.StringSet) (w : string) :
  NoDup s -> NoDup (JS.Set_add s w).
Proof.
  intros H. unfold JS.Set_add. destruct (JS.Set_has s w) eqn:Hw; [exact H|].
  apply NoDup_app; [exact H | repeat constructor; intros [] |].
  intros v Hv [<- | []].
  apply Set_has_In in Hv. congruence.
Qed.

Lemma NoDup_Set_delete (s : JS.StringSet) (w : string) :
  NoDup s -> NoDup (JS.Set_delete s w).
Proof. apply NoDup_filter. Qed.

Lemma NoDup_fold_add (l : list string) (s : JS.StringSet) :
  NoDup s -> NoDup (fold_left JS.Set_add l s).
Proof.
  revert s; induction l as [|w l IH]; intros s H; simpl; [exact H|].
  apply IH. now apply NoDup_Set_add.
Qed.

Lemma NoDup_Set_of (l : list string) : NoDup (JS.Set_of l).
Proof. apply NoDup_fold_add. constructor. Qed.

Lemma Set_has_fold_add (l : list string) (s : JS.StringSet) (v : string) :
  JS.Set_has (fold_left JS.Set_add l s) v
  = JS.Set_has s v || existsb (String.eqb v) l.
Proof.
  revert s; induction l as [|w l IH]; intros s; simpl.
  - now rewrite orb_false_r.
  - rewrite IH, Set_has_add. now rewrite orb_assoc.
Qed.

(** [new Set(l)] has exactly the elements of [l]. *)
Lemma Set_of_In (l : list string) (v : string) :
  In v (JS.Set_of l) <-> In v l.
Proof.
  rewrite <- Set_has_In. unfold JS.Set_of.
  rewrite Set_has_fold_add. simpl.
  apply (Set_has_In l v).
Qed.

Lemma Set_forEach_collect {E} (g : string -> E) (s : JS.StringSet) :
  JS.Set_forEach s (fun v out => out ++ [g v]) [] = map g s.
Proof.
  unfold JS.Set_forEach.
  assert (H : forall acc, fold_left (fun out v => out ++ [g v]) s acc
                          = acc ++ map g s).
  { induction s as [|w s IH]; intros acc; simpl.
    - now rewrite app_nil_r.
    - rewrite IH, <- app_assoc. reflexivity. }
  apply (H []).
Qed.

(** Each element of a duplicate-free sequence occurs once in it. *)
Lemma NoDup_once (s : JS.StringSet) (v : string) :
  NoDup s ->
  count_occ string_dec s v = if JS.Set_has s v then 1%nat else 0%nat.
Proof.
  intros H. destruct (JS.Set_has s v) eqn:Hv.
  - apply Set_has_In in Hv. now apply NoDup_count_occ'.
  - apply count_occ_not_In. intros Hin. apply Set_has_In in Hin. congruence.
Qed.

End Sets.

Section Selection.

Lemma toggle_has (photoId : string) (st : Grid.State) (v : string) :
  JS.Set_has (Grid.selectedPhotos (Grid.togglePhotoSelection photoId st)) v
  = if String.eqb v photoId
    then negb (JS.Set_has (Grid.selectedPhotos st) v)
    else JS.Set_has (Grid.selectedPhotos st) v.
Proof.
  unfold Grid.togglePhotoSelection. simpl.
  destruct (JS.Set_has (Grid.selectedPhotos st) photoId) eqn:Hp.
  - rewrite Set_has_delete.
    destruct (String.eqb_spec v photoId) as [->|_]; simpl.
    + now rewrite Hp.
    + now rewrite andb_true_r.
  - rewrite Set_has_add.
    destruct (String.eqb_spec v photoId) as [->|_]; simpl.
    + now rewrite Hp.
    + now rewrite orb_false_r.
Qed.

Lemma toggle_mode (photoId : string) (st : Grid.State) :
  Grid.isSelectionMode (Grid.togglePhotoSelection photoId st)
  = match Grid.selectedPhotos (Grid.togglePhotoSelection photoId st) with
    | [] => false
    | _ :: _ => Grid.isSelectionMode st
    end.
Proof.
  unfold Grid.togglePhotoSelection. simpl.
  set (newSet := if JS.Set_has _ _ then _ else _).
  unfold JS.Set_size. destruct newSet; simpl; reflexivity.
Qed.

Lemma toggles_has (photoIds : list string) (st : Grid.State) (v : string) :
  JS.Set_has (Grid.selectedPhotos (Grid.toggles photoIds st)) v
  = xorb (JS.Set_has (Grid.selectedPhotos st) v)
         (Nat.odd (count_occ string_dec photoIds v)).
Proof.
  unfold Grid.toggles.
  revert st; induction photoIds as [|w ws IH]; intros st; simpl.
  - now rewrite xorb_false_r.
  - rewrite IH, toggle_has.
    destruct (string_dec w v) as [->|Hw].
    + rewrite String.eqb_refl, Nat.odd_succ, <- Nat.negb_odd.
      now destruct (JS.Set_has _ v), (Nat.odd _).
    + destruct (String.eqb_spec v w); [congruence | reflexivity].
Qed.

Lemma mem_id_In (photo : Photo) (photos : list Photo) :
  In photo photos -> Grid.mem_id photo photos = true.
Proof.
  intros H. apply existsb_exists. exists photo.
  split; [assumption | apply String.eqb_refl].
Qed.

End Selection.

Section Controller.

Lemma Set_of_photos_nonempty (photos : list Photo) :
  photos <> [] -> JS.Set_of (map id photos) <> [].
Proof.
  destruct photos as [|p rest]; [congruence|]. intros _ E.
  assert (H : In (id p) (JS.Set_of (map id (p :: rest)))).
  { apply Set_of_In. now left. }
  rewrite E in H. destruct H.
Qed.

Lemma well_formed_toggle (photoId : string) (st : Grid.State) :
  well_formed st -> Grid.isSelectionMode st = true ->
  well_formed (Grid.togglePhotoSelection photoId st).
Proof.
  intros [Hnd _] Hmode. split.
  - unfold Grid.togglePhotoSelection. simpl.
    destruct (JS.Set_has _ _);
      [now apply NoDup_Set_delete | now apply NoDup_Set_add].
  - rewrite toggle_mode, Hmode.
    destruct (Grid.selectedPhotos (Grid.togglePhotoSelection photoId st));
      split; congruence.
Qed.

Lemma well_formed_exit (st : Grid.State) :
  well_formed (Grid.exitSelectionMode st).
Proof.
  split; simpl.
  - constructor.
  - split; [discriminate | intros E; now contradiction E].
Qed.

Lemma well_formed_step photos onDeletePhoto e st st' out :
  well_formed st ->
  Grid.dispatch photos onDeletePhoto e st = Some (st', out) ->
  well_formed st'.
Proof.
  intros Hwf H. unfold Grid.dispatch in H.
  destruct photos as [|p0 rest]; [discriminate|].
  destruct e.
  - destruct (Grid.mem_id photo (p0 :: rest)); [|discriminate].
    unfold Grid.handlePhotoClick in H.
    destruct (Grid.isSelectionMode st) eqn:Hmode; injection H as <- <-.
    + now apply well_formed_toggle.
    + exact Hwf.
  - destruct (Grid.mem_id photo (p0 :: rest)); [|discriminate].
    destruct (Grid.isSelectionMode st); simpl in H; injection H as <- <-.
    + exact Hwf.
    + split; simpl.
      * apply NoDup_Set_of.
      * split; [discriminate | reflexivity].
  - destruct (Grid.isSelectionMode st) eqn:Hmode; [|discriminate].
    injection H as <- <-. split; simpl.
    + apply NoDup_Set_of.
    + rewrite Hmode. split; [|reflexivity].
      intros _. now apply (Set_of_photos_nonempty (p0 :: rest)).
  - destruct (Grid.isSelectionMode st); [|discriminate].
    injection H as <- <-. exact Hwf.
  - destruct (Grid.isSelectionMode st); [|discriminate].
    injection H as <- <-. exact Hwf.
  - destruct (Grid.isSelectionMode st && onDeletePhoto)%bool; [|discriminate].
    injection H as <- <-. apply well_formed_exit.
  - destruct (Grid.isSelectionMode st); [|discriminate].
    injection H as <- <-. apply well_formed_exit.
Qed.

Lemma reachable_well_formed (st : Grid.State) :
  Grid.reachable st -> well_formed st.
Proof.
  induction 1 as [|photos onDeletePhoto e st st' out _ IH Hstep].
  - split; simpl; [constructor | split; [discriminate | congruence]].
  - exact (well_formed_step _ _ _ _ _ _ IH Hstep).
Qed.

Lemma visits_map (g : string -> Grid.Effect) (s : list string) :
  (forall v, Grid.visited (g v) = Some v) -> Grid.visits (map g s) = s.
Proof.
  intros Hg. induction s as [|w s IH]; simpl; [reflexivity|].
  rewrite Hg. now f_equal.
Qed.

End Controller.

(** C4: in selection mode a click on a photo of the grid runs
    [togglePhotoSelection] on its id and nothing else; afterwards the id is
    selected exactly if it was not, the membership of every other id is as
    before, and the mode is left exactly when the selection has become
    empty.  After any run of toggles an id is selected exactly if it was
    toggled an odd number of times, counted from an empty selection, where
    the long press that starts the selection counts as the first toggle. *)
Theorem toggle_selection_spec (photos : list Photo) (onDeletePhoto : bool)
        (st : Grid.State) (photo : Photo) :
  In photo photos ->
  Grid.isSelectionMode st = true ->
  Grid.dispatch photos onDeletePhoto (Grid.Click photo) st
  = Some (Grid.togglePhotoSelection (id photo) st, []) /\
  (forall v,
      JS.Set_has (Grid.selectedPhotos (Grid.togglePhotoSelection (id photo) st)) v
      = if String.eqb v (id photo)
        then negb (JS.Set_has (Grid.selectedPhotos st) v)
        else JS.Set_has (Grid.selectedPhotos st) v) /\
  (Grid.selectedPhotos (Grid.togglePhotoSelection (id photo) st) = [] ->
   Grid.isSelectionMode (Grid.togglePhotoSelection (id photo) st) = false) /\
  (Grid.selectedPhotos (Grid.togglePhotoSelection (id photo) st) <> [] ->
   Grid.isSelectionMode (Grid.togglePhotoSelection (id photo) st) = true) /\
  (forall photoIds st0 v,
      Grid.selectedPhotos st0 = [] ->
      JS.Set_has (Grid.selectedPhotos (Grid.toggles photoIds st0)) v
      = Nat.odd (count_occ string_dec photoIds v)) /\
  (forall first photoIds st0 v,
      JS.Set_has (Grid.selectedPhotos
                    (Grid.toggles photoIds (Grid.startSelectionMode first st0))) v
      = Nat.odd (count_occ string_dec (first :: photoIds) v)).
Proof.
  intros Hin Hmode. repeat split.
  - unfold Grid.dispatch. destruct photos as [|p0 rest]; [destruct Hin|].
    rewrite (mem_id_In photo (p0 :: rest) Hin).
    unfold Grid.handlePhotoClick. now rewrite Hmode.
  - intros v. apply toggle_has.
  - intros E. now rewrite toggle_mode, E.
  - intros E. rewrite toggle_mode, Hmode.
    now destruct (Grid.selectedPhotos (Grid.togglePhotoSelection (id photo) st)).
  - intros photoIds st0 v E. now rewrite toggles_has, E.
  - intros first photoIds st0 v.
    change (Grid.toggles photoIds (Grid.startSelectionMode first st0))
      with (Grid.toggles photoIds
              (Grid.togglePhotoSelection first (Grid.mkState [] true))).
    change (Grid.toggles photoIds
              (Grid.togglePhotoSelection first (Grid.mkState [] true)))
      with (Grid.toggles (first :: photoIds) (Grid.mkState [] true)).
    now rewrite toggles_has.
Qed.

(** The grid of the sample photos with the first one selected: a click on
    the second selects it as well. *)
Lemma toggle_selection_spec_witness :
  Grid.dispatch [Sample.P1; Sample.P2; Sample.P3] false (Grid.Click Sample.P2)
                (Grid.mkState ["p1"] true)
  = Some (Grid.mkState ["p1"; "p2"] true, []).
Proof.
  assert (Hin : In Sample.P2 [Sample.P1; Sample.P2; Sample.P3]).
  { simpl. auto. }
  exact (proj1 (toggle_selection_spec [Sample.P1; Sample.P2; Sample.P3] false
                  (Grid.mkState ["p1"] true) Sample.P2 Hin eq_refl)).
Defined.

(** C5: in every state that the grid reaches by long press, click, select
    all, cancel and the bulk actions, selection mode is on exactly if the
    selection is non-empty.  Select-all on an empty visible set cannot
    happen, as nothing is rendered for it; the function itself never changes
    the mode, so that it would leave a grid in normal mode in normal mode. *)
Theorem selection_mode_invariant (st : Grid.State) :
  Grid.reachable st ->
  (Grid.isSelectionMode st = true <-> Grid.selectedPhotos st <> []) /\
  (forall onDeletePhoto e, Grid.dispatch [] onDeletePhoto e st = None) /\
  (forall photos,
      Grid.isSelectionMode (Grid.selectAllPhotos photos st)
      = Grid.isSelectionMode st) /\
  (Grid.isSelectionMode st = false ->
   Grid.selectAllPhotos [] st = Grid.initial).
Proof.
  intros H. apply reachable_well_formed in H as [_ Hmode].
  repeat split; try apply Hmode; auto.
  intros E. unfold Grid.selectAllPhotos. simpl. now rewrite E.
Qed.

(** A long press on the first sample photo, then a click on the second:
    selection mode is on and two photos are selected. *)
Lemma selection_mode_invariant_witness :
  Grid.reachable (Grid.mkState ["p1"; "p2"] true) /\
  (Grid.isSelectionMode (Grid.mkState ["p1"; "p2"] true) = true
   <-> Grid.selectedPhotos (Grid.mkState ["p1"; "p2"] true) <> []).
Proof.
  assert (R1 : Grid.reachable (Grid.mkState ["p1"] true)).
  { apply (Grid.reachable_step [Sample.P1; Sample.P2] false
             (Grid.ContextMenu Sample.P1) Grid.initial _ []);
      [constructor | reflexivity]. }
  assert (R2 : Grid.reachable (Grid.mkState ["p1"; "p2"] true)).
  { apply (Grid.reachable_step [Sample.P1; Sample.P2] false
             (Grid.Click Sample.P2) (Grid.mkState ["p1"] true) _ []);
      [exact R1 | reflexivity]. }
  split; [exact R2|].
  exact (proj1 (selection_mode_invariant _ R2)).
Defined.

(** C6: in a reachable state in selection mode, each of the favorite,
    download and delete actions takes one turn for each selected id and for
    no other id, in the insertion order of the set.  In its turn for an id,
    favorite calls [onToggleFavorite] and delete calls [onDeletePhoto] with
    that id, and download downloads the first visible photo with that id, or
    nothing when no visible photo has it.  Favorite and download leave the
    selection as it is, delete leaves normal mode and an empty selection. *)
Theorem bulk_actions_visit_once (photos : list Photo) (onDeletePhoto : bool)
        (st : Grid.State) :
  Grid.reachable st ->
  photos <> [] ->
  Grid.isSelectionMode st = true ->
  exists fav down del,
    Grid.dispatch photos onDeletePhoto Grid.FavoriteSelected st
    = Some (st, fav) /\
    Grid.dispatch photos onDeletePhoto Grid.DownloadSelected st
    = Some (st, down) /\
    Grid.dispatch photos true Grid.DeleteSelected st
    = Some (Grid.mkState [] false, del) /\
    fav = map Grid.OnToggleFavorite (Grid.selectedPhotos st) /\
    del = map Grid.OnDeletePhoto (Grid.selectedPhotos st) /\
    Grid.visits down = Grid.selectedPhotos st /\
    (forall v,
        let once := if JS.Set_has (Grid.selectedPhotos st) v
                    then 1%nat else 0%nat in
        count_occ string_dec (Grid.visits fav) v = once /\
        count_occ string_dec (Grid.visits down) v = once /\
        count_occ string_dec (Grid.visits del) v = once) /\
    Forall2 (fun v turn => exists found,
                 turn = Grid.DownloadVisit v found /\
                 first_with_id photos v found)
            (Grid.selectedPhotos st) down.
Proof.
  intros Hr Hne Hmode.
  apply reachable_well_formed in Hr as [Hnd _].
  destruct photos as [|p0 rest]; [congruence|].
  eexists _, _, _. unfold Grid.dispatch. rewrite Hmode. simpl.
  unfold Grid.favoriteSelected, Grid.downloadSelected, Grid.deleteSelected.
  rewrite !Set_forEach_collect.
  split; [reflexivity|]. split; [reflexivity|]. split; [reflexivity|].
  split; [reflexivity|]. split; [reflexivity|].
  split; [now apply visits_map|]. split.
  - intros v. cbv zeta. rewrite !visits_map by reflexivity.
    rewrite (NoDup_once _ v Hnd). auto.
  - clear Hnd Hmode. induction (Grid.selectedPhotos st) as [|w s IH];
      simpl; constructor; [|exact IH].
    eexists. split; [reflexivity|]. apply find_first_with_id.
Qed.

(** The bulk actions after a long press on the first sample photo and a
    click on the third. *)
Lemma bulk_actions_visit_once_witness :
  Grid.reachable (Grid.mkState ["p1"; "p3"] true) /\
  exists fav down del,
    Grid.dispatch [Sample.P1; Sample.P2; Sample.P3] false
                  Grid.FavoriteSelected (Grid.mkState ["p1"; "p3"] true)
    = Some (Grid.mkState ["p1"; "p3"] true, fav) /\
    Grid.dispatch [Sample.P1; Sample.P2; Sample.P3] false
                  Grid.DownloadSelected (Grid.mkState ["p1"; "p3"] true)
    = Some (Grid.mkState ["p1"; "p3"] true, down) /\
    Grid.dispatch [Sample.P1; Sample.P2; Sample.P3] true
                  Grid.DeleteSelected (Grid.mkState ["p1"; "p3"] true)
    = Some (Grid.mkState [] false, del) /\
    fav = [Grid.OnToggleFavorite "p1"; Grid.OnToggleFavorite "p3"] /\
    del = [Grid.OnDeletePhoto "p1"; Grid.OnDeletePhoto "p3"].
Proof.
  assert (R1 : Grid.reachable (Grid.mkState ["p1"] true)).
  { apply (Grid.reachable_step [Sample.P1; Sample.P2; Sample.P3] false
             (Grid.ContextMenu Sample.P1) Grid.initial _ []);
      [constructor | reflexivity]. }
  assert (R2 : Grid.reachable (Grid.mkState ["p1"; "p3"] true)).
  { apply (Grid.reachable_step [Sample.P1; Sample.P2; Sample.P3] false
             (Grid.Click Sample.P3) (Grid.mkState ["p1"] true) _ []);
      [exact R1 | reflexivity]. }
  assert (Hne : [Sample.P1; Sample.P2; Sample.P3] <> []) by discriminate.
  split; [exact R2|].
  destruct (bulk_actions_visit_once [Sample.P1; Sample.P2; Sample.P3] false
              (Grid.mkState ["p1"; "p3"] true) R2 Hne eq_refl)
    as (fav & down & del & Hf & Hd & Hx & Ef & Ed & _).
  exists fav, down, del. repeat split; assumption.
Defined.

(** ** The grid: buckets per day *)

Section Objects.

Lemma own_push (d d' : string) (photo : Photo) (groups : Grouping.Groups) :
  Grouping.own d' (Grouping.push d photo groups)
  = if String.eqb d' d
    then option_map (fun ps => ps ++ [photo]) (Grouping.own d groups)
    else Grouping.own d' groups.
Proof.
  induction groups as [|[k ps] groups IH]; simpl.
  - now destruct (String.eqb d' d).
  - destruct (String.eqb_spec k d) as [->|Hk]; simpl.
    + destruct (String.eqb_spec d d') as [<-|Hd].
      * now rewrite String.eqb_refl.
      * destruct (String.eqb_spec d' d); [congruence | reflexivity].
    + destruct (String.eqb_spec k d') as [<-|Hd].
      * destruct (String.eqb_spec k d); [contradiction | reflexivity].
      * exact IH.
Qed.

Lemma keys_push (d : string) (photo : Photo) (groups : Grouping.Groups) :
  map fst (Grouping.push d photo groups) = map fst groups.
Proof.
  induction groups as [|[k ps] groups IH]; simpl; [reflexivity|].
  destruct (String.eqb k d); simpl; [reflexivity | now rewrite IH].
Qed.

Lemma concat_push (d : string) (photo : Photo) (groups : Grouping.Groups) :
  Grouping.own d groups <> None ->
  Permutation (List.concat (map snd (Grouping.push d photo groups)))
              (List.concat (map snd groups) ++ [photo]).
Proof.
  induction groups as [|[k ps] groups IH]; simpl; intros H; [congruence|].
  destruct (String.eqb k d); simpl.
  - rewrite <- !app_assoc. apply Permutation_app_head, Permutation_app_comm.
  - rewrite <- app_assoc. apply Permutation_app_head. now apply IH.
Qed.

Lemma own_app (d' : string) (groups more : Grouping.Groups) :
  Grouping.own d' (groups ++ more)
  = match Grouping.own d' groups with
    | Some ps => Some ps
    | None => Grouping.own d' more
    end.
Proof.
  induction groups as [|[k ps] groups IH]; simpl; [reflexivity|].
  now destruct (String.eqb k d').
Qed.

Lemma own_None (d : string) (groups : Grouping.Groups) :
  Grouping.own d groups = None -> ~ In d (map fst groups).
Proof.
  induction groups as [|[k ps] groups IH]; simpl; intros H; [tauto|].
  destruct (String.eqb_spec k d); [discriminate|]. intros [E | Hin]; auto.
  now apply IH.
Qed.

Lemma own_In (d : string) (ps : list Photo) (groups : Grouping.Groups) :
  NoDup (map fst groups) ->
  (In (d, ps) groups <-> Grouping.own d groups = Some ps).
Proof.
  induction groups as [|[k qs] groups IH]; simpl; intros Hnd.
  - split; [tauto | discriminate].
  - inversion Hnd as [|? ? Hk Hnd']; subst.
    destruct (String.eqb_spec k d) as [->|Hkd].
    + split.
      * intros [E | Hin]; [now injection E as -> |].
        exfalso. apply Hk. now apply (in_map fst) in Hin.
      * intros E. injection E as ->. now left.
    + rewrite <- (IH Hnd'). split; [|now right].
      intros [E | Hin]; [congruence | exact Hin].
Qed.

Lemma Permutation_concat {A} (l l' : list (list A)) :
  Permutation l l' -> Permutation (List.concat l) (List.concat l').
Proof.
  induction 1; simpl.
  - constructor.
  - now apply Permutation_app_head.
  - rewrite !app_assoc. apply Permutation_app_tail, Permutation_app_comm.
  - etransitivity; eassumption.
Qed.

Lemma insert_by_index_Permutation {V} (e : string * V) (l : list (string * V)) :
  Permutation (Grouping.insert_by_index e l) (e :: l).
Proof.
  induction l as [|e' l IH]; simpl; [reflexivity|].
  destruct (_ <=? _)%N; [reflexivity|].
  rewrite IH. apply perm_swap.
Qed.

Lemma Object_entries_Permutation {V} (o : list (string * V)) :
  Permutation (Grouping.Object_entries o) o.
Proof.
  unfold Grouping.Object_entries.
  assert (H : forall l : list (string * V),
             Permutation (fold_right Grouping.insert_by_index [] l) l).
  { induction l as [|e l IH]; simpl; [reflexivity|].
    now rewrite insert_by_index_Permutation, IH. }
  rewrite H. clear H.
  induction o as [|e o IH]; simpl; [reflexivity|].
  destruct (Grouping.is_array_index (fst e)); simpl.
  - now apply perm_skip.
  - rewrite <- Permutation_middle. now apply perm_skip.
Qed.

Lemma sort_insert_Permutation {A} (comparefn : A -> A -> option Z)
      (a : A) (l : list A) :
  Permutation (Grouping.sort_insert comparefn a l) (a :: l).
Proof.
  induction l as [|b l IH]; simpl; [reflexivity|].
  destruct (Grouping.goes_after comparefn a b); [|reflexivity].
  rewrite IH. apply perm_swap.
Qed.

Lemma Array_sort_Permutation {A} (comparefn : A -> A -> option Z) (l : list A) :
  Permutation (Grouping.Array_sort comparefn l) l.
Proof.
  unfold Grouping.Array_sort.
  induction l as [|a l IH]; simpl; [reflexivity|].
  now rewrite sort_insert_Permutation, IH.
Qed.

End Objects.

Section Buckets.

Variable formatDate : string -> string.
Variable getTime : string -> option Z.

Lemma filter_snoc (d : string) (done : list Photo) (photo : Photo) :
  filter (same_day formatDate d) (done ++ [photo])
  = filter (same_day formatDate d) done ++ 
    (if same_day formatDate d photo then [photo] else []).
Proof. rewrite filter_app. reflexivity. Qed.

Lemma grouped_empty : grouped formatDate [] [].
Proof. repeat split; simpl; constructor. Qed.

Lemma grouped_step (groups : Grouping.Groups) (done : list Photo) (photo : Photo) :
  grouped formatDate groups done ->
  Grouping.is_inherited (formatDate (uploadedAt photo)) = false ->
  exists groups',
    Grouping.group_step formatDate groups photo = Some groups' /\
    grouped formatDate groups' (done ++ [photo]).
Proof.
  intros (Hnd & Hown & Hperm) Hinh. unfold Grouping.group_step.
  destruct (Grouping.own (formatDate (uploadedAt photo)) groups) as [ps|] eqn:E.
  - eexists; split; [reflexivity|]. repeat split.
    + now rewrite keys_push.
    + intros d. rewrite own_push, filter_snoc.
      unfold same_day at 2.
      destruct (String.eqb_spec d (formatDate (uploadedAt photo))) as [->|Hd].
      * rewrite String.eqb_refl, E. simpl.
        pose proof (Hown (formatDate (uploadedAt photo))) as H.
        rewrite E in H.
        destruct (filter _ done) as [|q qs]; [discriminate|].
        now injection H as ->.
      * destruct (String.eqb_spec (formatDate (uploadedAt photo)) d);
          [congruence|].
        rewrite app_nil_r. apply Hown.
    + rewrite concat_push by congruence. now apply Permutation_app_tail.
  - rewrite Hinh. eexists; split; [reflexivity|]. repeat split.
    + rewrite map_app. simpl. apply NoDup_app; [exact Hnd | | ].
      * repeat constructor. intros [].
      * intros d Hd [<- | []]. now apply own_None in E.
    + intros d. rewrite own_app, filter_snoc.
      unfold same_day at 2. simpl.
      destruct (String.eqb_spec (formatDate (uploadedAt photo)) d) as [<-|Hd].
      * rewrite E. pose proof (Hown (formatDate (uploadedAt photo))) as H.
        rewrite E in H.
        destruct (filter _ done); [reflexivity | discriminate].
      * rewrite app_nil_r, <- (Hown d). now destruct (Grouping.own d groups).
    + rewrite map_app, concat_app. simpl. now apply Permutation_app_tail.
Qed.

Lemma reduce_grouped (photos : list Photo) :
  forall groups done,
    grouped formatDate groups done ->
    (forall p, In p photos ->
               Grouping.is_inherited (formatDate (uploadedAt p)) = false) ->
    exists groups',
      Grouping.reduce formatDate photos groups = Some groups' /\
      grouped formatDate groups' (done ++ photos).
Proof.
  induction photos as [|photo photos IH]; intros groups done Hg Hinh; simpl.
  - exists groups. now rewrite app_nil_r.
  - destruct (grouped_step groups done photo Hg) as (g1 & -> & Hg1).
    { apply Hinh. now left. }
    destruct (IH g1 (done ++ [photo]) Hg1) as (g2 & Hr & Hg2).
    { intros p Hp. apply Hinh. now right. }
    exists g2. split; [exact Hr|]. now rewrite <- app_assoc in Hg2.
Qed.

(** A bucket of grouped photos holds, in their order, the photos of its
    day, and there is at least one. *)
Lemma grouped_bucket (groups : Grouping.Groups) (done : list Photo)
      (d : string) (ps : list Photo) :
  grouped formatDate groups done ->
  (In (d, ps) groups <->
   ps <> [] /\ ps = filter (same_day formatDate d) done).
Proof.
  intros (Hnd & Hown & _). rewrite (own_In d ps groups Hnd), Hown.
  destruct (filter (same_day formatDate d) done) as [|q qs]; split.
  - discriminate.
  - intros [H ->]. congruence.
  - intros E. injection E as <-. split; [discriminate | reflexivity].
  - intros [_ ->]. reflexivity.
Qed.

Lemma goes_after_false (a b : string * list Photo) :
  parsed getTime a -> parsed getTime b ->
  Grouping.goes_after (Grouping.by_date_descending getTime) a b = false ->
  not_earlier getTime a b.
Proof.
  unfold parsed, Grouping.goes_after, Grouping.by_date_descending,
    not_earlier.
  destruct (getTime (fst a)), (getTime (fst b)); try congruence.
  intros _ _ H. apply Z.ltb_ge in H. lia.
Qed.

Lemma goes_after_true (a b : string * list Photo) :
  Grouping.goes_after (Grouping.by_date_descending getTime) a b = true ->
  not_earlier getTime b a.
Proof.
  unfold Grouping.goes_after, Grouping.by_date_descending, not_earlier.
  destruct (getTime (fst a)), (getTime (fst b)); try discriminate.
  intros H. apply Z.ltb_lt in H. lia.
Qed.

Lemma not_earlier_trans (a b c : string * list Photo) :
  not_earlier getTime a b -> not_earlier getTime b c -> not_earlier getTime a c.
Proof.
  unfold not_earlier.
  destruct (getTime (fst a)), (getTime (fst b)), (getTime (fst c));
    try tauto; lia.
Qed.

Lemma sort_insert_sorted (a : string * list Photo) (l : Grouping.Groups) :
  parsed getTime a -> Forall (parsed getTime) l ->
  StronglySorted (not_earlier getTime) l ->
  StronglySorted (not_earlier getTime)
                 (Grouping.sort_insert (Grouping.by_date_descending getTime) a l).
Proof.
  intros Ha Hl Hs. induction Hs as [|b l Hs IH Hb]; simpl.
  - repeat constructor.
  - inversion Hl as [|? ? Hpb Hl']; subst.
    destruct (Grouping.goes_after _ a b) eqn:E.
    + constructor; [now apply IH|].
      apply Forall_forall. intros x Hx.
      apply (Permutation_in _ (sort_insert_Permutation _ a l)) in Hx.
      destruct Hx as [<- | Hx].
      * now apply goes_after_true.
      * now apply (proj1 (Forall_forall _ _) Hb).
    + apply goes_after_false in E; auto.
      constructor; [now constructor|].
      constructor; [exact E|].
      apply Forall_forall. intros x Hx.
      apply (not_earlier_trans a b x E).
      now apply (proj1 (Forall_forall _ _) Hb).
Qed.

Lemma Array_sort_sorted (l : Grouping.Groups) :
  Forall (parsed getTime) l ->
  StronglySorted (not_earlier getTime)
                 (Grouping.Array_sort (Grouping.by_date_descending getTime) l).
Proof.
  unfold Grouping.Array_sort.
  induction 1 as [|a l Ha Hl IH]; simpl; [constructor|].
  apply sort_insert_sorted; auto.
  apply Forall_forall. intros x Hx.
  apply (Permutation_in _ (Array_sort_Permutation _ l)) in Hx.
  now apply (proj1 (Forall_forall _ _) Hl).
Qed.

(** C7: when no date label is the name of a property that objects inherit,
    [groupByDate] yields buckets with pairwise different labels; a bucket is
    not empty and holds exactly the input photos with its label, in their
    input order; every input photo is in the bucket of its label; the
    buckets together hold the input photos, each as often as the input does.
    When all labels parse as dates, no bucket is earlier than a later
    one. *)
Theorem groupByDate_partition (photos : list Photo) :
  (forall p, In p photos ->
             Grouping.is_inherited (formatDate (uploadedAt p)) = false) ->
  exists buckets,
    Grouping.groupByDate formatDate getTime photos = Some buckets /\
    NoDup (map fst buckets) /\
    (forall d ps,
        In (d, ps) buckets ->
        ps <> [] /\
        ps = filter (same_day formatDate d) photos) /\
    (forall p,
        In p photos ->
        exists ps, In (formatDate (uploadedAt p), ps) buckets /\ In p ps) /\
    Permutation (List.concat (map snd buckets)) photos /\
    ((forall p, In p photos -> getTime (formatDate (uploadedAt p)) <> None) ->
     StronglySorted (not_earlier getTime) buckets).
Proof.
  intros Hinh.
  destruct (reduce_grouped photos [] [] grouped_empty Hinh) as (g & Hr & Hg).
  simpl in Hg. unfold Grouping.groupByDate, Grouping.groupedPhotos. rewrite Hr.
  set (buckets := Grouping.Array_sort _ _).
  assert (P : Permutation buckets g).
  { subst buckets. now rewrite Array_sort_Permutation, Object_entries_Permutation. }
  exists buckets. split; [reflexivity|].
  assert (Hbucket : forall d ps, In (d, ps) buckets ->
            ps <> [] /\ ps = filter (same_day formatDate d) photos).
  { intros d ps Hin. apply (grouped_bucket g photos d ps Hg).
    now apply (Permutation_in _ P). }
  repeat split.
  - apply (Permutation_NoDup (Permutation_map fst (Permutation_sym P))).
    apply Hg.
  - now apply (Hbucket d ps).
  - now apply (Hbucket d ps).
  - intros p Hp.
    set (d := formatDate (uploadedAt p)).
    assert (Hin : In p (filter (same_day formatDate d) photos)).
    { apply filter_In. split; [exact Hp | apply String.eqb_refl]. }
    exists (filter (same_day formatDate d) photos). split; [|exact Hin].
    apply (Permutation_in _ (Permutation_sym P)).
    apply (grouped_bucket g photos d _ Hg). split; [|reflexivity].
    intros E. rewrite E in Hin. destruct Hin.
  - rewrite (Permutation_concat _ _ (Permutation_map snd P)). apply Hg.
  - intros Hparse. subst buckets. apply Array_sort_sorted.
    apply Forall_forall. intros [d ps] Hin.
    apply (Permutation_in _ (Object_entries_Permutation g)) in Hin.
    apply (grouped_bucket g photos d ps Hg) in Hin as [Hne ->].
    destruct (filter (same_day formatDate d) photos) as [|q qs] eqn:E;
      [congruence|].
    assert (Hq : In q (filter (same_day formatDate d) photos)).
    { rewrite E. now left. }
    apply filter_In in Hq as [Hq Hd]. apply String.eqb_eq in Hd.
    unfold parsed. simpl. rewrite <- Hd. now apply Hparse.
Qed.

End Buckets.

(** The buckets of the sample photos: the later day comes first, and the
    two photos of the first day keep their order. *)
Lemma groupByDate_partition_witness :
  Grouping.groupByDate Sample.formatDate Sample.getTime
                       [Sample.P1; Sample.P2; Sample.P3]
  = Some [("2024-01-02", [Sample.P3]); ("2024-01-01", [Sample.P1; Sample.P2])] /\
  StronglySorted (not_earlier Sample.getTime)
    [("2024-01-02", [Sample.P3]); ("2024-01-01", [Sample.P1; Sample.P2])].
Proof.
  split; [reflexivity|].
  assert (Hinh : forall p, In p [Sample.P1; Sample.P2; Sample.P3] ->
            Grouping.is_inherited (Sample.formatDate (uploadedAt p)) = false).
  { intros p [<- | [<- | [<- | []]]]; reflexivity. }
  assert (Hparse : forall p, In p [Sample.P1; Sample.P2; Sample.P3] ->
            Sample.getTime (Sample.formatDate (uploadedAt p)) <> None).
  { intros p [<- | [<- | [<- | []]]]; discriminate. }
  destruct (groupByDate_partition Sample.formatDate Sample.getTime
              [Sample.P1; Sample.P2; Sample.P3] Hinh)
    as (buckets & Hb & _ & _ & _ & _ & Hsorted).
  injection Hb as <-. exact (Hsorted Hparse).
Defined.

(** * Further properties *)

(** ** The collection: uploads, search, favorites *)

Section Collection.

(** X1: uploads append.  After any run of uploads the collection is the
    former collection followed by the batches in the order of the calls, so
    every photo keeps its position. *)
Theorem uploads_in_order (batches : list (list Photo)) (photos : list Photo) :
  Library.uploads batches photos = photos ++ List.concat batches /\
  (forall i p, nth_error photos i = Some p ->
               nth_error (Library.uploads batches photos) i = Some p).
Proof.
  assert (E : Library.uploads batches photos = photos ++ List.concat batches).
  { unfold Library.uploads. revert photos.
    induction batches as [|b bs IH]; intros photos; simpl.
    - now rewrite app_nil_r.
    - rewrite IH. unfold App.handlePhotoUpload. now rewrite app_assoc. }
  split; [exact E|].
  intros i p H. rewrite E, nth_error_app1; [exact H|].
  apply nth_error_Some. congruence.
Qed.

(** Two batches after the first sample photo. *)
Lemma uploads_in_order_witness :
  Library.uploads [[Sample.P2]; [Sample.P3]] [Sample.P1]
  = [Sample.P1; Sample.P2; Sample.P3] /\
  nth_error (Library.uploads [[Sample.P2]; [Sample.P3]] [Sample.P1]) 0
  = Some Sample.P1.
Proof.
  split.
  - exact (proj1 (uploads_in_order [[Sample.P2]; [Sample.P3]] [Sample.P1])).
  - exact (proj2 (uploads_in_order [[Sample.P2]; [Sample.P3]] [Sample.P1])
             0%nat Sample.P1 eq_refl).
Defined.

Lemma filter_filter_comm {A} (f g : A -> bool) (l : list A) :
  filter f (filter g l) = filter g (filter f l).
Proof.
  induction l as [|a l IH]; simpl; [reflexivity|].
  destruct (f a) eqn:Hf, (g a) eqn:Hg; simpl; rewrite ?Hf, ?Hg, IH; reflexivity.
Qed.

Lemma filter_filter_and {A} (f g : A -> bool) (l : list A) :
  filter f (filter g l) = filter (fun a => g a && f a) l.
Proof.
  induction l as [|a l IH]; simpl; [reflexivity|].
  destruct (g a); simpl; [destruct (f a)|]; now rewrite IH.
Qed.

(** X2: the favorites view shows exactly the favorite photos of the
    collection that match the search, in the order of the collection; the
    other views show all matches.  The count beside "Favorites" in the
    sidebar ignores the search and is never smaller than the number of
    photos the favorites view shows. *)
Theorem favorites_view_shows (toLowerCase : string -> string)
        (photos : list Photo) (searchQuery : string) :
  (forall p,
      In p (Library.shown toLowerCase photos searchQuery App.favorites_view) <->
      In p photos /\ matches toLowerCase searchQuery p /\ isFavorite p = true) /\
  Subsequence (Library.shown toLowerCase photos searchQuery App.favorites_view)
              photos /\
  Z.of_nat (List.length
              (Library.shown toLowerCase photos searchQuery App.favorites_view))
  <= Library.favoriteCount photos /\
  Library.shown toLowerCase photos searchQuery App.photos_view
  = App.filteredPhotos toLowerCase photos searchQuery /\
  Library.shown toLowerCase photos searchQuery App.albums_view
  = App.filteredPhotos toLowerCase photos searchQuery.
Proof.
  unfold Library.shown, App.displayPhotos, App.filteredPhotos,
    Library.favoriteCount.
  repeat split.
  - apply filter_In in H as [H _]. now apply filter_In in H.
  - apply filter_In in H as [H _]. apply filter_In in H as [_ H].
    now apply search_matches.
  - now apply filter_In in H as [_ H].
  - intros (Hin & Hm & Hf). apply filter_In. split; [|exact Hf].
    apply filter_In. split; [exact Hin | now apply search_matches].
  - rewrite filter_filter_and. apply filter_Subsequence.
  - rewrite filter_filter_comm. apply inj_le, filter_length_le.
Qed.

Lemma filter_map_comm {A} (f : A -> bool) (g : A -> A) (l : list A) :
  (forall a, f (g a) = f a) -> filter f (map g l) = map g (filter f l).
Proof.
  intros H. induction l as [|a l IH]; simpl; [reflexivity|].
  rewrite H. destruct (f a); simpl; now rewrite IH.
Qed.

(** X3: a favorite toggle and the search commute: the search result of
    the toggled collection is the toggled search result, so a toggle never
    adds a photo to the result of a search, removes one or moves one. *)
Theorem toggleFavorite_keeps_search (toLowerCase : string -> string)
        (photoId : string) (photos : list Photo) (searchQuery : string) :
  App.filteredPhotos toLowerCase (App.toggleFavorite photoId photos) searchQuery
  = App.toggleFavorite photoId
      (App.filteredPhotos toLowerCase photos searchQuery) /\
  map id (App.filteredPhotos toLowerCase (App.toggleFavorite photoId photos)
                             searchQuery)
  = map id (App.filteredPhotos toLowerCase photos searchQuery).
Proof.
  assert (E : App.filteredPhotos toLowerCase (App.toggleFavorite photoId photos)
                                 searchQuery
              = App.toggleFavorite photoId
                  (App.filteredPhotos toLowerCase photos searchQuery)).
  { unfold App.filteredPhotos, App.toggleFavorite. apply filter_map_comm.
    intros p. now destruct (String.eqb (id p) photoId). }
  split; [exact E|].
  rewrite E. unfold App.toggleFavorite. rewrite map_map. apply map_ext.
  intros p. now destruct (String.eqb (id p) photoId).
Qed.

Lemma toggleFavorite_absent (photoId : string) (photos : list Photo) :
  ~ In photoId (map id photos) -> App.toggleFavorite photoId photos = photos.
Proof.
  intros H. unfold App.toggleFavorite.
  rewrite <- (map_id photos) at 2. apply map_ext_in.
  intros p Hp. destruct (String.eqb_spec (id p) photoId) as [E|E]; [|reflexivity].
  exfalso. apply H. rewrite <- E. now apply in_map.
Qed.

Lemma toggleFavorite_ids (photoId : string) (photos : list Photo) :
  map id (App.toggleFavorite photoId photos) = map id photos.
Proof.
  unfold App.toggleFavorite. rewrite map_map. apply map_ext.
  intros p. now destruct (String.eqb (id p) photoId).
Qed.

(** With distinct ids, a photo of the collection is determined by its id. *)
Lemma same_id_same_photo (photos : list Photo) (a b : Photo) :
  NoDup (map id photos) -> In a photos -> In b photos -> id a = id b -> a = b.
Proof.
  intros Hnd Ha Hb E.
  apply In_nth_error in Ha as [i Hi]. apply In_nth_error in Hb as [j Hj].
  assert (i = j) by exact (distinct_positions photos i j a b Hnd Hi Hj E).
  subst j. congruence.
Qed.

(** X4: with distinct ids, toggling a photo of the collection changes the
    count of favorites by exactly one: down if it was a favorite, up if it
    was not. *)
Theorem toggleFavorite_count (photos : list Photo) (p : Photo) :
  NoDup (map id photos) -> In p photos ->
  Library.favoriteCount (App.toggleFavorite (id p) photos)
  = Library.favoriteCount photos + (if isFavorite p then -1 else 1).
Proof.
  unfold Library.favoriteCount.
  induction photos as [|a rest IH]; intros Hnd Hin; [destruct Hin|].
  simpl in Hnd. inversion Hnd as [|? ? Ha Hrest]; subst.
  assert (Hcases : a = p /\ ~ In (id p) (map id rest)
                   \/ id a <> id p /\ In p rest).
  { destruct Hin as [-> | Hin]; [now left|].
    right. split; [|exact Hin]. intros E. apply Ha. rewrite E. now apply in_map. }
  destruct Hcases as [[-> Habs] | [Hne Hin']].
  - change (App.toggleFavorite (id p) (p :: rest))
      with ((if String.eqb (id p) (id p)
             then with_isFavorite p (negb (isFavorite p)) else p)
            :: App.toggleFavorite (id p) rest).
    rewrite String.eqb_refl, (toggleFavorite_absent _ _ Habs).
    cbn [filter with_isFavorite isFavorite].
    destruct (isFavorite p); cbn [negb List.length]; lia.
  - change (App.toggleFavorite (id p) (a :: rest))
      with ((if String.eqb (id a) (id p)
             then with_isFavorite a (negb (isFavorite a)) else a)
            :: App.toggleFavorite (id p) rest).
    destruct (String.eqb_spec (id a) (id p)); [contradiction|].
    specialize (IH Hrest Hin'). cbn [filter].
    destruct (isFavorite a); cbn [List.length]; lia.
Qed.

(** The third sample photo becomes a favorite: the count goes from 0 to
    1. *)
Lemma toggleFavorite_count_witness :
  Library.favoriteCount
    (App.toggleFavorite "p3" [Sample.P1; Sample.P2; Sample.P3]) = 1.
Proof.
  assert (Hnd : NoDup (map id [Sample.P1; Sample.P2; Sample.P3])).
  { simpl. repeat constructor; simpl; intuition discriminate. }
  assert (Hin : In Sample.P3 [Sample.P1; Sample.P2; Sample.P3]).
  { simpl. auto. }
  exact (toggleFavorite_count [Sample.P1; Sample.P2; Sample.P3] Sample.P3 Hnd Hin).
Defined.

End Collection.

(** The second sample photo as the only favorite, searched for by a part
    of its name, with the ASCII mapping taken as the host's. *)
Lemma favorites_view_shows_witness :
  In (with_isFavorite Sample.P2 true)
     (Library.shown JS.toLowerCase_ascii
                    [Sample.P1; with_isFavorite Sample.P2 true; Sample.P3]
                    "forest" App.favorites_view).
Proof.
  apply (proj1 (favorites_view_shows JS.toLowerCase_ascii
                  [Sample.P1; with_isFavorite Sample.P2 true; Sample.P3]
                  "forest")).
  split; [simpl; auto|]. split; [|reflexivity].
  left. exists "", ".png". reflexivity.
Defined.

(** ** The viewer and the collection *)

Section ViewerAndCollection.

Lemma absent_navigation (displayPhotos : list Photo) (current : Photo) :
  ~ In (id current) (map id displayPhotos) ->
  App.onNext displayPhotos current = hd_error displayPhotos /\
  App.onPrevious displayPhotos current = None.
Proof.
  intros Hnot.
  assert (Hi : JS.findIndex (fun p => String.eqb (id p) (id current))
                            displayPhotos = -1).
  { apply findIndex_from_none. intros a Ha. apply String.eqb_neq.
    intros E. apply Hnot. rewrite <- E. now apply in_map. }
  unfold App.onNext, App.onPrevious, JS.rem. rewrite Hi. split; [|reflexivity].
  destruct displayPhotos as [|first rest]; [reflexivity|].
  destruct (Z.eqb_spec (Z.of_nat (List.length (first :: rest))) 0) as [E|E].
  - simpl in E. lia.
  - rewrite Z.rem_0_l by exact E. reflexivity.
Qed.

(** X5: when nothing is displayed, both navigation callbacks hand
    [undefined] to [setSelectedPhoto], whatever the current photo is, and the
    viewer closes. *)
Theorem empty_display_closes (current : Photo) (st : Viewer.State) :
  App.onNext [] current = None /\
  App.onPrevious [] current = None /\
  Viewer.next [] (Viewer.mkOpen current st) = None /\
  Viewer.previous [] (Viewer.mkOpen current st) = None.
Proof.
  destruct (absent_navigation [] current) as [Hn Hp]; [intros []|].
  unfold Viewer.next, Viewer.previous. simpl Viewer.selectedPhoto.
  rewrite Hn, Hp. auto.
Qed.

(** X6: in the favorites view, with distinct ids, removing the viewed
    photo from the favorites takes it out of the display sequence; the next
    step then shows the first remaining photo, or closes the viewer when none
    remains, and the previous step closes the viewer. *)
Theorem unfavorite_in_favorites_view (toLowerCase : string -> string)
        (photos : list Photo) (searchQuery : string) (p : Photo)
        (st : Viewer.State) :
  NoDup (map id photos) -> In p photos -> isFavorite p = true ->
  ~ In (id p)
       (map id (Library.shown toLowerCase (App.toggleFavorite (id p) photos)
                              searchQuery App.favorites_view)) /\
  App.onNext (Library.shown toLowerCase (App.toggleFavorite (id p) photos)
                            searchQuery App.favorites_view) p
  = hd_error (Library.shown toLowerCase (App.toggleFavorite (id p) photos)
                            searchQuery App.favorites_view) /\
  Viewer.previous (Library.shown toLowerCase (App.toggleFavorite (id p) photos)
                                 searchQuery App.favorites_view)
                  (Viewer.mkOpen p st) = None.
Proof.
  intros Hnd Hin Hfav.
  set (shown' := Library.shown _ _ _ _).
  assert (Habs : ~ In (id p) (map id shown')).
  { intros H. apply in_map_iff in H as (x & Hid & Hx).
    unfold shown', Library.shown, App.displayPhotos, App.filteredPhotos in Hx.
    apply filter_In in Hx as [Hx Hxfav]. apply filter_In in Hx as [Hx _].
    unfold App.toggleFavorite in Hx.
    apply in_map_iff in Hx as (y & Hy & Hyin).
    assert (Eid : id y = id p).
    { rewrite <- Hid, <- Hy. now destruct (String.eqb (id y) (id p)). }
    assert (y = p) by exact (same_id_same_photo photos y p Hnd Hyin Hin Eid).
    subst y. rewrite String.eqb_refl in Hy. subst x.
    simpl in Hxfav. rewrite Hfav in Hxfav. discriminate. }
  destruct (absent_navigation shown' p Habs) as [Hn Hp].
  repeat split; auto.
  unfold Viewer.previous. simpl Viewer.selectedPhoto. now rewrite Hp.
Qed.

(** The first sample photo as a favorite, the only one: after the toggle
    nothing is displayed and next yields nothing. *)
Lemma unfavorite_in_favorites_view_witness :
  App.onNext
    (Library.shown JS.toLowerCase_ascii
       (App.toggleFavorite "p1" [with_isFavorite Sample.P1 true; Sample.P2])
       "" App.favorites_view)
    (with_isFavorite Sample.P1 true)
  = None.
Proof.
  assert (Hnd : NoDup (map id [with_isFavorite Sample.P1 true; Sample.P2])).
  { simpl. repeat constructor; simpl; intuition discriminate. }
  assert (Hin : In (with_isFavorite Sample.P1 true)
                   [with_isFavorite Sample.P1 true; Sample.P2]).
  { now left. }
  exact (proj1 (proj2 (unfavorite_in_favorites_view JS.toLowerCase_ascii
                         [with_isFavorite Sample.P1 true; Sample.P2] ""
                         (with_isFavorite Sample.P1 true) Viewer.initial
                         Hnd Hin eq_refl))).
Defined.

Lemma at_index_In {A} (l : list A) (i : option Z) (a : A) :
  JS.at_index l i = Some a -> In a l.
Proof.
  unfold JS.at_index. destruct i as [i|]; [|discriminate].
  destruct (i <? 0); [discriminate|]. apply nth_error_In.
Qed.

(** X7: the viewer keeps the photo record it was given.  With distinct
    ids, after a favorite toggle of the viewed photo, stepping to the next
    photo and back shows the record of the toggled collection, whose
    favorite flag is the negated one. *)
Theorem viewer_refreshes_on_return (displayPhotos : list Photo) (p : Photo) :
  NoDup (map id displayPhotos) -> In p displayPhotos ->
  exists r,
    App.onNext (App.toggleFavorite (id p) displayPhotos) p = Some r /\
    App.onPrevious (App.toggleFavorite (id p) displayPhotos) r
    = Some (with_isFavorite p (negb (isFavorite p))).
Proof.
  intros Hnd Hin.
  set (toggled := App.toggleFavorite (id p) displayPhotos).
  assert (Hids : map id toggled = map id displayPhotos)
    by apply toggleFavorite_ids.
  assert (Hin' : In (id p) (map id toggled)).
  { rewrite Hids. now apply in_map. }
  assert (Hnd' : NoDup (map id toggled)) by now rewrite Hids.
  destruct (next_previous_roundtrip toggled p Hin' Hnd')
    as [(r & q & Hr & Hq & Eq) _].
  exists r. split; [exact Hr|]. rewrite Hq. f_equal.
  assert (Hqin : In q toggled).
  { unfold App.onPrevious in Hq. now apply at_index_In in Hq. }
  unfold toggled, App.toggleFavorite in Hqin.
  apply in_map_iff in Hqin as (y & Hy & Hyin).
  assert (Eid : id y = id p).
  { rewrite <- Eq, <- Hy. now destruct (String.eqb (id y) (id p)). }
  assert (y = p) by exact (same_id_same_photo displayPhotos y p Hnd Hyin Hin Eid).
  subst y. now rewrite String.eqb_refl in Hy.
Qed.

(** The second sample photo, toggled while it is viewed: next shows the
    third photo, previous then the second one as a favorite. *)
Lemma viewer_refreshes_on_return_witness :
  exists r,
    App.onNext (App.toggleFavorite "p2" [Sample.P1; Sample.P2; Sample.P3])
               Sample.P2 = Some r /\
    App.onPrevious (App.toggleFavorite "p2" [Sample.P1; Sample.P2; Sample.P3]) r
    = Some (with_isFavorite Sample.P2 true).
Proof.
  assert (Hnd : NoDup (map id [Sample.P1; Sample.P2; Sample.P3])).
  { simpl. repeat constructor; simpl; intuition discriminate. }
  assert (Hin : In Sample.P2 [Sample.P1; Sample.P2; Sample.P3]).
  { simpl. auto. }
  exact (viewer_refreshes_on_return [Sample.P1; Sample.P2; Sample.P3]
           Sample.P2 Hnd Hin).
Defined.

End ViewerAndCollection.

(** ** The viewer: runs of events *)

Section ViewerRuns.

Local Open Scope float_scope.

(** The zoom levels at which the photo cannot be dragged. *)
Lemma zoom_levels_small (z : float) :
  In z Viewer.zoom_levels -> (1 <? z) = false ->
  In (JS.Math_max (z / 1.5) 0.5) Viewer.zoom_levels /\
  (1 <? JS.Math_max (z / 1.5) 0.5) = false.
Proof.
  unfold Viewer.zoom_levels. intros H.
  repeat (destruct H as [<- | H];
          [vm_compute; first [discriminate | intros _; split;
                                             [pick_level | reflexivity]]|]).
  destruct H.
Qed.

Lemma zoom_levels_disabled (z : float) :
  In z Viewer.zoom_levels ->
  (5 <=? z) = (JS.Math_min (z * 1.5) 5 =? z) /\
  (z <=? 0.5) = (JS.Math_max (z / 1.5) 0.5 =? z).
Proof.
  unfold Viewer.zoom_levels. intros H.
  repeat (destruct H as [<- | H]; [split; reflexivity|]).
  destruct H.
Qed.

Lemma setSelectedPhoto_zoom (v : option Photo) (o o' : Viewer.Open) :
  Viewer.setSelectedPhoto v o = Some o' ->
  Viewer.view o' = Viewer.view o \/
  (Viewer.zoom (Viewer.view o') = 1 /\
   Viewer.position (Viewer.view o') = Viewer.origin /\
   Viewer.isDragging (Viewer.view o') = Viewer.isDragging (Viewer.view o)).
Proof.
  unfold Viewer.setSelectedPhoto, Viewer.resetEffect.
  destruct v as [p|]; [|discriminate]. intros H. injection H as <-. simpl.
  destruct (String.eqb _ _); [now left | right; auto].
Qed.

Lemma handleMouseDown_zoom x y st :
  Viewer.zoom (Viewer.handleMouseDown x y st) = Viewer.zoom st.
Proof. unfold Viewer.handleMouseDown. now destruct (1 <? Viewer.zoom st). Qed.

Lemma handleMouseMove_zoom x y st :
  Viewer.zoom (Viewer.handleMouseMove x y st) = Viewer.zoom st.
Proof.
  unfold Viewer.handleMouseMove.
  now destruct (Viewer.isDragging st && (1 <? Viewer.zoom st))%bool.
Qed.

Lemma step_levels (displayPhotos : list Photo) (e : ViewerEvents.Event)
      (o o' : Viewer.Open) :
  In (Viewer.zoom (Viewer.view o)) Viewer.zoom_levels ->
  ViewerEvents.step displayPhotos e o = Some o' ->
  In (Viewer.zoom (Viewer.view o')) Viewer.zoom_levels.
Proof.
  intros Hz H.
  assert (Hnav : forall v, Viewer.setSelectedPhoto v o = Some o' ->
                           In (Viewer.zoom (Viewer.view o')) Viewer.zoom_levels).
  { intros v Hv. apply setSelectedPhoto_zoom in Hv as [-> | [-> _]];
      [exact Hz | now left]. }
  destruct (zoom_levels_closed _ Hz) as [Hin Hout].
  destruct e; simpl in H; unfold ViewerEvents.handleKeyDown in H.
  - destruct (String.eqb key "Escape"); [discriminate|].
    destruct (String.eqb key "ArrowLeft"); [now apply Hnav in H|].
    destruct (String.eqb key "ArrowRight"); [now apply Hnav in H|].
    destruct (String.eqb key "i" || String.eqb key "I")%bool;
      injection H as <-; exact Hz.
  - destruct (1 <? _)%Z; [now apply Hnav in H | now injection H as <-].
  - destruct (1 <? _)%Z; [now apply Hnav in H | now injection H as <-].
  - destruct (ViewerEvents.zoomOutDisabled _); injection H as <-; assumption.
  - destruct (ViewerEvents.zoomInDisabled _); injection H as <-; assumption.
  - injection H as <-. exact Hz.
  - discriminate.
  - injection H as <-. simpl. now rewrite handleMouseDown_zoom.
  - injection H as <-. simpl. now rewrite handleMouseMove_zoom.
  - injection H as <-. exact Hz.
  - injection H as <-. exact Hz.
Qed.

Lemma run_levels (events : list (list Photo * ViewerEvents.Event))
      (o o' : Viewer.Open) :
  In (Viewer.zoom (Viewer.view o)) Viewer.zoom_levels ->
  ViewerEvents.run events o = Some o' ->
  In (Viewer.zoom (Viewer.view o')) Viewer.zoom_levels.
Proof.
  revert o; induction events as [|[ps e] events IH]; intros o Hz H; simpl in H.
  - now injection H as <-.
  - destruct (ViewerEvents.step ps e o) as [o1|] eqn:E; [|discriminate].
    apply (IH o1); [|exact H]. exact (step_levels ps e o o1 Hz E).
Qed.

(** X8: whatever happens in the open viewer (keys, buttons, mouse, steps
    to other photos in display sequences that change between events), as
    long as it stays open its zoom is between 0.5 and 5. *)
Theorem viewer_zoom_bounded (events : list (list Photo * ViewerEvents.Event))
        (photo : Photo) (o : Viewer.Open) :
  ViewerEvents.run events (Viewer.open photo) = Some o ->
  (0.5 <=? Viewer.zoom (Viewer.view o)) = true /\
  (Viewer.zoom (Viewer.view o) <=? 5) = true.
Proof.
  intros H. apply zoom_levels_bounded.
  apply (run_levels events (Viewer.open photo) o); [now left | exact H].
Qed.

(** X9: in every state of the open viewer, the zoom-in button is disabled
    exactly when [handleZoomIn] would leave the zoom as it is, and the
    zoom-out button exactly when [handleZoomOut] would: the disabled
    buttons hide no zoom step that would change anything. *)
Theorem zoom_buttons_disabled_when_idle
        (events : list (list Photo * ViewerEvents.Event))
        (photo : Photo) (o : Viewer.Open) :
  ViewerEvents.run events (Viewer.open photo) = Some o ->
  ViewerEvents.zoomInDisabled (Viewer.view o)
  = (Viewer.zoom (Viewer.handleZoomIn (Viewer.view o))
     =? Viewer.zoom (Viewer.view o)) /\
  ViewerEvents.zoomOutDisabled (Viewer.view o)
  = (Viewer.zoom (Viewer.handleZoomOut (Viewer.view o))
     =? Viewer.zoom (Viewer.view o)).
Proof.
  intros H. apply zoom_levels_disabled.
  apply (run_levels events (Viewer.open photo) o); [now left | exact H].
Qed.

(** The sample run ends with the viewer open on the second photo. *)
Lemma viewer_zoom_bounded_witness :
  exists o,
    ViewerEvents.run Scenario.viewing (Viewer.open Sample.P1) = Some o /\
    Viewer.selectedPhoto o = Sample.P2 /\
    (0.5 <=? Viewer.zoom (Viewer.view o)) = true /\
    (Viewer.zoom (Viewer.view o) <=? 5) = true.
Proof.
  eexists. split; [reflexivity|]. split; [reflexivity|].
  apply (viewer_zoom_bounded Scenario.viewing Sample.P1). reflexivity.
Defined.

(** After the sample run neither zoom button is disabled, and neither
    handler would leave the zoom as it is. *)
Lemma zoom_buttons_disabled_when_idle_witness :
  exists o,
    ViewerEvents.run Scenario.viewing (Viewer.open Sample.P1) = Some o /\
    ViewerEvents.zoomInDisabled (Viewer.view o) = false /\
    (Viewer.zoom (Viewer.handleZoomIn (Viewer.view o))
     =? Viewer.zoom (Viewer.view o)) = false.
Proof.
  eexists. split; [reflexivity|]. split; [reflexivity|].
  rewrite <- (proj1 (zoom_buttons_disabled_when_idle Scenario.viewing Sample.P1
                       _ eq_refl)).
  reflexivity.
Defined.

Lemma step_unzoomed (displayPhotos : list Photo) (e : ViewerEvents.Event)
      (o o' : Viewer.Open) :
  ViewerEvents.is_zoom_in e = false ->
  In (Viewer.zoom (Viewer.view o)) Viewer.zoom_levels ->
  (1 <? Viewer.zoom (Viewer.view o)) = false ->
  Viewer.isDragging (Viewer.view o) = false ->
  Viewer.position (Viewer.view o) = Viewer.origin ->
  ViewerEvents.step displayPhotos e o = Some o' ->
  (1 <? Viewer.zoom (Viewer.view o')) = false /\
  Viewer.isDragging (Viewer.view o') = false /\
  Viewer.position (Viewer.view o') = Viewer.origin.
Proof.
  intros He Hl Hz Hd Hp H.
  assert (Hnav : forall v, Viewer.setSelectedPhoto v o = Some o' ->
            (1 <? Viewer.zoom (Viewer.view o')) = false /\
            Viewer.isDragging (Viewer.view o') = false /\
            Viewer.position (Viewer.view o') = Viewer.origin).
  { intros v Hv. apply setSelectedPhoto_zoom in Hv as [-> | (-> & -> & ->)];
      auto. }
  destruct e; simpl in H; unfold ViewerEvents.handleKeyDown in H;
    try discriminate.
  - destruct (String.eqb key "Escape"); [discriminate|].
    destruct (String.eqb key "ArrowLeft"); [now apply Hnav in H|].
    destruct (String.eqb key "ArrowRight"); [now apply Hnav in H|].
    destruct (String.eqb key "i" || String.eqb key "I")%bool;
      injection H as <-; auto.
  - destruct (1 <? _)%Z; [now apply Hnav in H | injection H as <-; auto].
  - destruct (1 <? _)%Z; [now apply Hnav in H | injection H as <-; auto].
  - destruct (ViewerEvents.zoomOutDisabled _); injection H as <-; auto.
    simpl. split; [|auto]. now apply zoom_levels_small.
  - injection H as <-. auto.
  - injection H as <-. simpl. unfold Viewer.handleMouseDown.
    rewrite Hz. auto.
  - injection H as <-. simpl. unfold Viewer.handleMouseMove.
    rewrite Hz, Hd. auto.
  - injection H as <-. auto.
  - injection H as <-. auto.
Qed.

(** X10: without a zoom-in the photo cannot be panned.  In a run of
    events of the open viewer that has no click on the zoom-in button, the
    zoom never exceeds 1, no drag starts and the pan stays (0, 0). *)
Theorem no_pan_without_zoom_in
        (events : list (list Photo * ViewerEvents.Event))
        (photo : Photo) (o : Viewer.Open) :
  (forall ps e, In (ps, e) events -> ViewerEvents.is_zoom_in e = false) ->
  ViewerEvents.run events (Viewer.open photo) = Some o ->
  (1 <? Viewer.zoom (Viewer.view o)) = false /\
  Viewer.isDragging (Viewer.view o) = false /\
  Viewer.position (Viewer.view o) = Viewer.origin.
Proof.
  assert (G : forall events o0,
             (forall ps e, In (ps, e) events ->
                           ViewerEvents.is_zoom_in e = false) ->
             In (Viewer.zoom (Viewer.view o0)) Viewer.zoom_levels ->
             (1 <? Viewer.zoom (Viewer.view o0)) = false ->
             Viewer.isDragging (Viewer.view o0) = false ->
             Viewer.position (Viewer.view o0) = Viewer.origin ->
             ViewerEvents.run events o0 = Some o ->
             (1 <? Viewer.zoom (Viewer.view o)) = false /\
             Viewer.isDragging (Viewer.view o) = false /\
             Viewer.position (Viewer.view o) = Viewer.origin).
  { clear events. induction events as [|[ps e] events IH];
      intros o0 Hev Hl Hz Hd Hp H; simpl in H.
    - injection H as <-. auto.
    - destruct (ViewerEvents.step ps e o0) as [o1|] eqn:E; [|discriminate].
      assert (He : ViewerEvents.is_zoom_in e = false).
      { apply (Hev ps). now left. }
      destruct (step_unzoomed ps e o0 o1 He Hl Hz Hd Hp E) as (Hz1 & Hd1 & Hp1).
      apply (IH o1); auto.
      + intros ps' e' Hin. apply (Hev ps'). now right.
      + exact (step_levels ps e o0 o1 Hl E). }
  intros Hev H.
  apply (G events (Viewer.open photo)); auto. now left.
Qed.

(** The sample run without zoom-in: the drag moves nothing. *)
Lemma no_pan_without_zoom_in_witness :
  exists o,
    ViewerEvents.run Scenario.viewing_unzoomed (Viewer.open Sample.P1) = Some o /\
    Viewer.position (Viewer.view o) = Viewer.origin.
Proof.
  eexists. split; [reflexivity|].
  refine (proj2 (proj2 (no_pan_without_zoom_in Scenario.viewing_unzoomed
                          Sample.P1 _ _ eq_refl))).
  intros ps e H. simpl in H.
  repeat (destruct H as [H | H]; [now injection H as _ <- |]).
  destruct H.
Defined.

Lemma zoom_levels_six (z : float) :
  In z Viewer.zoom_levels ->
  JS.Math_min (JS.Math_min (JS.Math_min (JS.Math_min (JS.Math_min
    (JS.Math_min (z * 1.5) 5 * 1.5) 5 * 1.5) 5 * 1.5) 5 * 1.5) 5 * 1.5) 5 = 5 /\
  JS.Math_max (JS.Math_max (JS.Math_max (JS.Math_max (JS.Math_max
    (JS.Math_max (z / 1.5) 0.5 / 1.5) 0.5 / 1.5) 0.5 / 1.5) 0.5 / 1.5) 0.5
    / 1.5) 0.5 = 0.5.
Proof.
  unfold Viewer.zoom_levels. intros H.
  repeat (destruct H as [<- | H]; [split; reflexivity|]).
  destruct H.
Qed.

(** X11: from every state of the open viewer, six zoom-in steps lead to
    the largest zoom, 5, and six zoom-out steps to the smallest, 0.5. *)
Theorem six_steps_reach_the_limits
        (events : list (list Photo * ViewerEvents.Event))
        (photo : Photo) (o : Viewer.Open) :
  ViewerEvents.run events (Viewer.open photo) = Some o ->
  Viewer.zoom (Viewer.zoomCalls (repeat Viewer.ZoomIn 6) (Viewer.view o)) = 5 /\
  Viewer.zoom (Viewer.zoomCalls (repeat Viewer.ZoomOut 6) (Viewer.view o)) = 0.5.
Proof.
  intros H. apply (zoom_levels_six (Viewer.zoom (Viewer.view o))).
  apply (run_levels events (Viewer.open photo) o); [now left | exact H].
Qed.

(** From the end of the sample run, six zoom-in steps. *)
Lemma six_steps_reach_the_limits_witness :
  exists o,
    ViewerEvents.run Scenario.viewing (Viewer.open Sample.P1) = Some o /\
    Viewer.zoom (Viewer.zoomCalls (repeat Viewer.ZoomIn 6) (Viewer.view o)) = 5.
Proof.
  eexists. split; [reflexivity|].
  exact (proj1 (six_steps_reach_the_limits Scenario.viewing Sample.P1 _ eq_refl)).
Defined.

End ViewerRuns.

(** ** The grid: more on selection *)

Section MoreSelection.

Lemma Set_of_length (l : list string) :
  (List.length (JS.Set_of l) <= List.length l)%nat /\
  (NoDup l -> JS.Set_of l = l).
Proof.
  unfold JS.Set_of.
  assert (G : forall l s,
             (List.length (fold_left JS.Set_add l s)
              <= List.length s + List.length l)%nat /\
             (NoDup (s ++ l) -> fold_left JS.Set_add l s = s ++ l)).
  { clear l. induction l as [|w l IH]; intros s; simpl.
    - split; [lia | now rewrite app_nil_r].
    - destruct (IH (JS.Set_add s w)) as [Hlen Heq].
      assert (Hadd : (List.length (JS.Set_add s w) <= S (List.length s))%nat).
      { unfold JS.Set_add. destruct (JS.Set_has s w); [lia|].
        rewrite length_app. simpl. lia. }
      split; [lia|].
      intros Hnd.
      assert (Hw : JS.Set_has s w = false).
      { destruct (JS.Set_has s w) eqn:E; [|reflexivity].
        apply Set_has_In in E. apply NoDup_remove_2 in Hnd.
        exfalso. apply Hnd. apply in_or_app. now left. }
      assert (Es : JS.Set_add s w = s ++ [w]).
      { unfold JS.Set_add. now rewrite Hw. }
      rewrite Es in *. rewrite <- app_assoc in Heq. now apply Heq. }
  destruct (G l []) as [Hlen Heq]. split; [exact Hlen | exact Heq].
Qed.

(** X12: select-all selects the ids of the visible photos and no other
    id, each once, whatever was selected before, and leaves the mode as it
    is; the number shown as selected is at most the number of visible
    photos, and with distinct ids the selection is the sequence of their
    ids. *)
Theorem selectAll_selects_visible (photos : list Photo) (st : Grid.State) :
  Grid.isSelectionMode (Grid.selectAllPhotos photos st)
  = Grid.isSelectionMode st /\
  (forall v, JS.Set_has (Grid.selectedPhotos (Grid.selectAllPhotos photos st)) v
             = true <-> In v (map id photos)) /\
  NoDup (Grid.selectedPhotos (Grid.selectAllPhotos photos st)) /\
  JS.Set_size (Grid.selectedPhotos (Grid.selectAllPhotos photos st))
  <= Z.of_nat (List.length photos) /\
  (NoDup (map id photos) ->
   Grid.selectedPhotos (Grid.selectAllPhotos photos st) = map id photos).
Proof.
  unfold Grid.selectAllPhotos. simpl. split; [reflexivity|]. repeat split.
  - intros H. apply Set_has_In in H. now apply Set_of_In.
  - intros H. apply Set_has_In. now apply Set_of_In.
  - apply NoDup_Set_of.
  - unfold JS.Set_size. apply inj_le.
    rewrite <- (length_map id photos). apply Set_of_length.
  - apply Set_of_length.
Qed.

(** Select-all in the grid of the three sample photos. *)
Lemma selectAll_selects_visible_witness :
  Grid.selectedPhotos
    (Grid.selectAllPhotos [Sample.P1; Sample.P2; Sample.P3]
                          (Grid.mkState ["p9"] true))
  = ["p1"; "p2"; "p3"].
Proof.
  apply (proj2 (proj2 (proj2 (proj2 (selectAll_selects_visible
                                       [Sample.P1; Sample.P2; Sample.P3]
                                       (Grid.mkState ["p9"] true)))))).
  simpl. repeat constructor; simpl; intuition discriminate.
Defined.

(** X13: the download action visits the selected ids in order and
    downloads, for each id, the first visible photo with that id; an id that
    no visible photo has is skipped without a download. *)
Theorem download_skips_stale_ids (photos : list Photo) (st : Grid.State) :
  Grid.visits (snd (Grid.downloadSelected photos st)) = Grid.selectedPhotos st /\
  (forall v found,
      In (Grid.DownloadVisit v found) (snd (Grid.downloadSelected photos st)) ->
      In v (Grid.selectedPhotos st) /\ first_with_id photos v found) /\
  (forall v, In v (Grid.selectedPhotos st) ->
             exists found,
               In (Grid.DownloadVisit v found)
                  (snd (Grid.downloadSelected photos st)) /\
               first_with_id photos v found) /\
  fst (Grid.downloadSelected photos st) = st.
Proof.
  unfold Grid.downloadSelected. simpl. rewrite Set_forEach_collect.
  split; [now apply visits_map|]. split; [|split; [|reflexivity]].
  - intros v found H. apply in_map_iff in H as (w & E & Hw).
    injection E as <- <-. split; [exact Hw | apply find_first_with_id].
  - intros v Hv. eexists. split; [|apply find_first_with_id].
    apply in_map_iff. exists v. split; [reflexivity | exact Hv].
Qed.

(** A download with two ids selected, the first carried by two visible
    photos and the second by none: the first of the two photos is
    downloaded, the second id is skipped. *)
Lemma download_skips_stale_ids_witness :
  snd (Grid.downloadSelected [Sample.P1; with_isFavorite Sample.P1 true; Sample.P2]
                             (Grid.mkState ["p1"; "p3"] true))
  = [Grid.DownloadVisit "p1" (Some Sample.P1); Grid.DownloadVisit "p3" None] /\
  first_with_id [Sample.P1; with_isFavorite Sample.P1 true; Sample.P2]
                "p3" None.
Proof.
  split; [reflexivity|].
  refine (proj2 (proj1 (proj2 (download_skips_stale_ids
                                 [Sample.P1; with_isFavorite Sample.P1 true;
                                  Sample.P2]
                                 (Grid.mkState ["p1"; "p3"] true)))
                       "p3" None _)).
  simpl. auto.
Defined.



Lemma no_member_nil (s : JS.StringSet) :
  (forall v, JS.Set_has s v = false) -> s = [].
Proof.
  destruct s as [|w s]; [reflexivity|]. intros H.
  specialize (H w). unfold JS.Set_has in H. simpl in H.
  now rewrite String.eqb_refl in H.
Qed.

Lemma toggles_mode (photoIds : list string) (st : Grid.State) :
  Grid.selectedPhotos (Grid.toggles photoIds st) = [] ->
  Grid.selectedPhotos st = [] \/
  Grid.isSelectionMode (Grid.toggles photoIds st) = false.
Proof.
  unfold Grid.toggles.
  revert st; induction photoIds as [|w ws IH]; intros st H; simpl in *.
  - now left.
  - destruct (IH _ H) as [E | E]; [|now right].
    right. clear IH.
    assert (Hm : Grid.isSelectionMode (Grid.togglePhotoSelection w st) = false).
    { now rewrite toggle_mode, E. }
    revert Hm. generalize (Grid.togglePhotoSelection w st). clear.
    induction ws as [|u us IH]; intros st Hm; simpl; [exact Hm|].
    apply IH. rewrite toggle_mode, Hm.
    now destruct (Grid.selectedPhotos (Grid.togglePhotoSelection u st)).
Qed.

(** X15: clicking each selected photo once more deselects everything and
    leaves selection mode: from a reachable state, toggling the selected ids
    one after the other ends in the initial state. *)
Theorem deselecting_all_leaves_mode (st : Grid.State) :
  Grid.reachable st ->
  Grid.toggles (Grid.selectedPhotos st) st = Grid.initial.
Proof.
  intros Hr. destruct (reachable_well_formed st Hr) as [Hnd Hmode].
  assert (Hempty : Grid.selectedPhotos
                     (Grid.toggles (Grid.selectedPhotos st) st) = []).
  { apply no_member_nil. intros v.
    rewrite toggles_has, (NoDup_once _ v Hnd).
    now destruct (JS.Set_has (Grid.selectedPhotos st) v). }
  destruct (toggles_mode _ _ Hempty) as [E | E].
  - rewrite E. simpl. destruct st as [sel mode]. simpl in *. subst sel.
    destruct mode; [|reflexivity].
    exfalso. now apply (proj1 Hmode).
  - destruct (Grid.toggles (Grid.selectedPhotos st) st) as [sel mode].
    simpl in *. now subst.
Qed.

(** Two photos selected, both clicked again. *)
Lemma deselecting_all_leaves_mode_witness :
  Grid.toggles ["p1"; "p3"] (Grid.mkState ["p1"; "p3"] true) = Grid.initial.
Proof.
  assert (R1 : Grid.reachable (Grid.mkState ["p1"] true)).
  { apply (Grid.reachable_step [Sample.P1; Sample.P2; Sample.P3] false
             (Grid.ContextMenu Sample.P1) Grid.initial _ []);
      [constructor | reflexivity]. }
  assert (R2 : Grid.reachable (Grid.mkState ["p1"; "p3"] true)).
  { apply (Grid.reachable_step [Sample.P1; Sample.P2; Sample.P3] false
             (Grid.Click Sample.P3) (Grid.mkState ["p1"] true) _ []);
      [exact R1 | reflexivity]. }
  exact (deselecting_all_leaves_mode _ R2).
Defined.

End MoreSelection.

(** ** The grid: more on the buckets *)

Section MoreBuckets.

Variable formatDate : string -> string.
Variable getTime : string -> option Z.

Lemma own_has (d : string) (groups : Grouping.Groups) :
  JS.Set_has (map fst groups) d
  = match Grouping.own d groups with Some _ => true | None => false end.
Proof.
  unfold JS.Set_has.
  induction groups as [|[k ps] groups IH]; simpl; [reflexivity|].
  rewrite (String.eqb_sym d k). now destruct (String.eqb k d).
Qed.

Lemma group_step_keys (groups groups' : Grouping.Groups) (photo : Photo) :
  Grouping.group_step formatDate groups photo = Some groups' ->
  map fst groups' = JS.Set_add (map fst groups) (formatDate (uploadedAt photo)).
Proof.
  unfold Grouping.group_step, JS.Set_add. rewrite own_has.
  destruct (Grouping.own _ groups).
  - intros H. injection H as <-. apply keys_push.
  - destruct (Grouping.is_inherited _); [discriminate|].
    intros H. injection H as <-. now rewrite map_app.
Qed.

Lemma reduce_keys (photos : list Photo) :
  forall groups groups',
    Grouping.reduce formatDate photos groups = Some groups' ->
    map fst groups'
    = fold_left JS.Set_add (map (fun p => formatDate (uploadedAt p)) photos)
                (map fst groups).
Proof.
  induction photos as [|photo photos IH]; intros groups groups' H; simpl in *.
  - now injection H as <-.
  - destruct (Grouping.group_step formatDate groups photo) as [g1|] eqn:E;
      [|discriminate].
    rewrite (IH g1 groups' H). now rewrite (group_step_keys groups g1 photo E).
Qed.

Lemma reduce_throws (photos : list Photo) :
  forall groups,
    (forall d, In d (map fst groups) -> Grouping.is_inherited d = false) ->
    (exists p, In p photos /\
               Grouping.is_inherited (formatDate (uploadedAt p)) = true) ->
    Grouping.reduce formatDate photos groups = None.
Proof.
  induction photos as [|photo photos IH]; intros groups Hkeys (p & Hin & Hp).
  - destruct Hin.
  - simpl. destruct (Grouping.group_step formatDate groups photo) as [g1|] eqn:E;
      [|reflexivity].
    pose proof (group_step_keys groups g1 photo E) as Hk.
    assert (Hd : Grouping.is_inherited (formatDate (uploadedAt photo)) = false).
    { unfold Grouping.group_step in E.
      destruct (Grouping.own _ groups) eqn:Ho.
      - apply Hkeys. apply Set_has_In. rewrite own_has. now rewrite Ho.
      - destruct (Grouping.is_inherited (formatDate (uploadedAt photo)));
          [discriminate | reflexivity]. }
    apply IH.
    + intros d Hdin. rewrite Hk in Hdin.
      apply Set_has_In in Hdin. rewrite Set_has_add in Hdin.
      apply orb_true_iff in Hdin as [Hdin | Hdin].
      * apply Hkeys. now apply Set_has_In.
      * apply String.eqb_eq in Hdin. now subst.
    + destruct Hin as [-> | Hin]; [congruence | now exists p].
Qed.

(** X16: grouping fails, with the [TypeError] of a missing [push], exactly
    when the date label of some photo is the name of a property that objects
    inherit; otherwise it yields buckets. *)
Theorem groupByDate_fails_iff (photos : list Photo) :
  Grouping.groupByDate formatDate getTime photos = None <->
  exists p, In p photos /\
            Grouping.is_inherited (formatDate (uploadedAt p)) = true.
Proof.
  unfold Grouping.groupByDate, Grouping.groupedPhotos. split.
  - intros H.
    destruct (existsb (fun p => Grouping.is_inherited (formatDate (uploadedAt p)))
                      photos) eqn:E.
    + apply existsb_exists in E as (p & Hin & Hp). now exists p.
    + destruct (reduce_grouped formatDate photos [] [] (grouped_empty formatDate))
        as (g & Hg & _).
      { intros p Hp. destruct (Grouping.is_inherited _) eqn:Ep; [|reflexivity].
        assert (Hex : existsb (fun p => Grouping.is_inherited
                                          (formatDate (uploadedAt p))) photos
                      = true).
        { apply existsb_exists. now exists p. }
        congruence. }
      rewrite Hg in H. discriminate.
  - intros H. rewrite (reduce_throws photos [] (fun d (F : In d []) => match F with end) H).
    reflexivity.
Qed.

(** X17: the object of the [reduce] gets its keys in the order in which
    the labels first appear among the photos: when grouping succeeds, the
    labels of the unsorted buckets are those of [new Set] of the photos'
    labels. *)
Theorem groupedPhotos_keys (photos : list Photo) :
  (forall p, In p photos ->
             Grouping.is_inherited (formatDate (uploadedAt p)) = false) ->
  exists groups,
    Grouping.groupedPhotos formatDate photos = Some groups /\
    map fst groups
    = JS.Set_of (map (fun p => formatDate (uploadedAt p)) photos) /\
    (forall d, In d (map fst groups) <->
               exists p, In p photos /\ formatDate (uploadedAt p) = d).
Proof.
  intros Hinh.
  destruct (reduce_grouped formatDate photos [] [] (grouped_empty formatDate) Hinh)
    as (g & Hg & _).
  exists g. unfold Grouping.groupedPhotos.
  assert (Hk : map fst g
               = JS.Set_of (map (fun p => formatDate (uploadedAt p)) photos)).
  { exact (reduce_keys photos [] g Hg). }
  repeat split; auto.
  - rewrite Hk, Set_of_In. intros H.
    apply in_map_iff in H as (p & E & Hp). now exists p.
  - intros (p & Hp & E). rewrite Hk, Set_of_In, <- E.
    now apply (in_map (fun p => formatDate (uploadedAt p))).
Qed.

End MoreBuckets.

(** Grouping the first sample photo under a label that is the name of an
    inherited method. *)
Lemma groupByDate_fails_iff_witness :
  Grouping.groupByDate (fun _ => "toString") Sample.getTime [Sample.P1] = None.
Proof.
  apply (proj2 (groupByDate_fails_iff (fun _ => "toString") Sample.getTime
                  [Sample.P1])).
  exists Sample.P1. split; [now left | reflexivity].
Defined.

(** The two days of the sample photos, in the order of their first
    photos. *)
Lemma groupedPhotos_keys_witness :
  exists groups,
    Grouping.groupedPhotos Sample.formatDate [Sample.P1; Sample.P2; Sample.P3]
    = Some groups /\
    map fst groups = ["2024-01-01"; "2024-01-02"].
Proof.
  assert (Hinh : forall p, In p [Sample.P1; Sample.P2; Sample.P3] ->
            Grouping.is_inherited (Sample.formatDate (uploadedAt p)) = false).
  { intros p [<- | [<- | [<- | []]]]; reflexivity. }
  destruct (groupedPhotos_keys Sample.formatDate
              [Sample.P1; Sample.P2; Sample.P3] Hinh) as (g & Hg & Hk & _).
  exists g. split; [exact Hg | exact Hk].
Defined.

(** ** The upload modal *)

Section UploadModal.

Lemma without_index_from_outside {A} (index : Z) (arr : list A) (i : Z) :
  index < i \/ i + Z.of_nat (List.length arr) <= index ->
  Upload.without_index_from index arr i = arr.
Proof.
  revert i; induction arr as [|a arr IH]; intros i H; simpl; [reflexivity|].
  simpl List.length in H. rewrite Nat2Z.inj_succ in H.
  destruct (Z.eqb_spec i index); [lia|]. simpl.
  rewrite IH; [reflexivity | lia].
Qed.

Lemma without_index_from_inside {A} (index : Z) (arr : list A) (i : Z) :
  i <= index < i + Z.of_nat (List.length arr) ->
  Upload.without_index_from index arr i
  = firstn (Z.to_nat (index - i)) arr ++ skipn (S (Z.to_nat (index - i))) arr.
Proof.
  revert i; induction arr as [|a arr IH]; intros i H; simpl List.length in H.
  - lia.
  - rewrite Nat2Z.inj_succ in H. simpl Upload.without_index_from.
    destruct (Z.eqb_spec i index) as [->|Hne]; simpl negb; cbv iota.
    + rewrite Z.sub_diag. simpl.
      apply without_index_from_outside. lia.
    + rewrite IH by lia.
      replace (Z.to_nat (index - i)) with (S (Z.to_nat (index - (i + 1)))) by lia.
      reflexivity.
Qed.

Lemma without_index_In {A} (index : Z) (arr : list A) (a : A) :
  In a (Upload.without_index index arr) -> In a arr.
Proof.
  unfold Upload.without_index. generalize 0.
  induction arr as [|b arr IH]; intros i H; simpl in *; [exact H|].
  destruct (negb (i =? index)).
  - destruct H as [-> | H]; [now left | right; eauto].
  - right; eauto.
Qed.

(** X18: removing the file at [index] takes exactly that entry out of the
    selection and keeps the others in order; an [index] that is negative or
    beyond the last entry leaves the selection as it is.  Both versions of
    the modal remove in this way. *)
Theorem removeFile_spec (index : Z) (st : Upload.State) (st1 : UploadSimple.State) :
  UploadSimple.selectedFiles (UploadSimple.removeFile index st1)
  = Upload.without_index index (UploadSimple.selectedFiles st1) /\
  (0 <= index < Z.of_nat (List.length (Upload.selectedFiles st)) ->
   Upload.selectedFiles (Upload.removeFile index st)
   = firstn (Z.to_nat index) (Upload.selectedFiles st)
     ++ skipn (S (Z.to_nat index)) (Upload.selectedFiles st) /\
   S (List.length (Upload.selectedFiles (Upload.removeFile index st)))
   = List.length (Upload.selectedFiles st)) /\
  (index < 0 \/ Z.of_nat (List.length (Upload.selectedFiles st)) <= index ->
   Upload.removeFile index st = st).
Proof.
  split; [reflexivity|]. split.
  - intros H. unfold Upload.removeFile, Upload.without_index. simpl.
    rewrite without_index_from_inside by lia. rewrite Z.sub_0_r.
    split; [reflexivity|].
    rewrite length_app, length_firstn, length_skipn. lia.
  - intros H. unfold Upload.removeFile, Upload.without_index.
    rewrite without_index_from_outside by lia. now destruct st.
Qed.

(** Removing the second of three selected files, and a removal beyond the
    end. *)
Lemma removeFile_spec_witness :
  Upload.selectedFiles
    (Upload.removeFile 1 (Upload.mkState false
                            [Scenario.png; Scenario.jpg; Scenario.png] false 0))
  = [Scenario.png; Scenario.png] /\
  Upload.removeFile 3 (Upload.mkState false
                         [Scenario.png; Scenario.jpg; Scenario.png] false 0)
  = Upload.mkState false [Scenario.png; Scenario.jpg; Scenario.png] false 0.
Proof.
  split.
  - refine (proj1 (proj1 (proj2 (removeFile_spec 1
             (Upload.mkState false [Scenario.png; Scenario.jpg; Scenario.png]
                             false 0) UploadSimple.initial)) _)).
    simpl. lia.
  - refine (proj2 (proj2 (removeFile_spec 3
             (Upload.mkState false [Scenario.png; Scenario.jpg; Scenario.png]
                             false 0) UploadSimple.initial)) _).
    simpl. lia.
Defined.

Lemma Forall_images_app (l l' : list Upload.File) :
  Forall (fun f => Upload.isImage f = true) l ->
  Forall (fun f => Upload.isImage f = true) (l ++ filter Upload.isImage l').
Proof.
  intros H. apply Forall_app. split; [exact H|].
  apply Forall_forall. intros f Hf. now apply filter_In in Hf.
Qed.

Lemma Forall_images_without (index : Z) (l : list Upload.File) :
  Forall (fun f => Upload.isImage f = true) l ->
  Forall (fun f => Upload.isImage f = true) (Upload.without_index index l).
Proof.
  intros H. apply Forall_forall. intros f Hf.
  apply without_index_In in Hf. exact (proj1 (Forall_forall _ _) H f Hf).
Qed.

(** X19: in every state of the modal all selected files are images (their
    type starts with "image/"), an upload in progress has at least one
    file, and the progress shown is between 0 and 100. *)
Theorem upload_modal_invariant (st : Upload.State) :
  Upload.reachable st ->
  Forall (fun f => Upload.isImage f = true) (Upload.selectedFiles st) /\
  (Upload.uploading st = true -> Upload.selectedFiles st <> []) /\
  0 <= Upload.uploadProgress st <= 100.
Proof.
  induction 1 as [|e st Hr (Himg & Hup & Hp)|ds st Hr (Himg & Hup & Hp) Hu
                  |st Hr (Himg & Hup & Hp) Hu|st Hr (Himg & Hup & Hp) Hu].
  - simpl. split; [constructor|]. split; [discriminate | lia].
  - destruct e as [kind| | | | | |]; simpl.
    + unfold Upload.handleDrag.
      destruct (String.eqb kind "dragenter" || String.eqb kind "dragover")%bool;
        [|destruct (String.eqb kind "dragleave")]; simpl; auto.
    + unfold Upload.handleDrop.
      destruct (0 <? _); simpl; [|auto].
      split; [now apply Forall_images_app|]. split; [|exact Hp].
      intros Hu E. apply app_eq_nil in E as [E _]. now apply Hup.
    + destruct (Upload.uploading st) eqn:Hu; simpl; [rewrite Hu; auto|].
      unfold Upload.handleFileSelect.
      destruct (0 <? _); simpl; rewrite ?Hu; [|auto].
      split; [now apply Forall_images_app|]. split; [discriminate | exact Hp].
    + destruct (Upload.uploading st) eqn:Hu; simpl; [rewrite Hu; auto|].
      rewrite Hu.
      split; [now apply Forall_images_without|]. split; [discriminate | exact Hp].
    + destruct (Z.eqb_spec (Z.of_nat (List.length (Upload.selectedFiles st))) 0)
        as [E|E]; simpl; [auto|].
      destruct (Upload.uploading st) eqn:Hu; simpl; [rewrite Hu; auto|].
      unfold Upload.uploadStart.
      destruct (Z.eqb_spec (Z.of_nat (List.length (Upload.selectedFiles st))) 0);
        [contradiction|].
      simpl. split; [exact Himg|]. split; [|lia].
      intros _ E'. rewrite E' in E. now apply E.
    + destruct (Upload.uploading st) eqn:Hu; simpl; [rewrite Hu; auto|].
      unfold Upload.handleClose. rewrite Hu. simpl.
      split; [constructor|]. split; [discriminate | lia].
    + split; [exact Himg|]. split; [exact Hup|].
      destruct (Z.leb_spec 90 (Upload.uploadProgress st)); lia.
  - simpl. split; [exact Himg|]. split; [exact Hup | lia].
  - simpl. split; [constructor|]. split; [discriminate | lia].
  - simpl. split; [exact Himg|]. split; [discriminate | lia].
Qed.

(** Three files dropped, one of them a PDF, and an upload started. *)
Lemma upload_modal_invariant_witness :
  Upload.reachable (Upload.mkState false [Scenario.png; Scenario.jpg] true 0) /\
  Forall (fun f => Upload.isImage f = true) [Scenario.png; Scenario.jpg].
Proof.
  assert (R1 : Upload.reachable
                 (Upload.mkState false [Scenario.png; Scenario.jpg] false 0)).
  { exact (Upload.reachable_step
             (Upload.Drop [Scenario.png; Scenario.pdf; Scenario.jpg])
             Upload.initial Upload.reachable_initial). }
  assert (R2 : Upload.reachable
                 (Upload.mkState false [Scenario.png; Scenario.jpg] true 0)).
  { exact (Upload.reachable_step Upload.UploadButton _ R1). }
  split; [exact R2|].
  exact (proj1 (upload_modal_invariant _ R2)).
Defined.

(** X20: the simulated progress.  From 0, after [n] ticks of the timer
    the progress is [10 n] up to 90 and stays at 90 from then on; the ticks
    change nothing else. *)
Theorem progress_after_ticks (n : nat) (st : Upload.State) :
  Upload.uploadProgress st = 0 ->
  Upload.uploadProgress (Nat.iter n Upload.progressTick st)
  = Z.min (10 * Z.of_nat n) 90 /\
  Upload.selectedFiles (Nat.iter n Upload.progressTick st)
  = Upload.selectedFiles st /\
  Upload.uploading (Nat.iter n Upload.progressTick st) = Upload.uploading st.
Proof.
  intros H0. induction n as [|n (IHp & IHf & IHu)].
  - simpl. rewrite H0. auto.
  - rewrite Nat.iter_succ. unfold Upload.progressTick at 1 3 5. simpl.
    rewrite IHp. repeat split; auto.
    destruct (Z.leb_spec 90 (Z.min (10 * Z.of_nat n) 90)); lia.
Qed.

(** Twelve ticks after the start of an upload. *)
Lemma progress_after_ticks_witness :
  Upload.uploadProgress
    (Nat.iter 12 Upload.progressTick
       (Upload.uploadStart (Upload.mkState false [Scenario.png] false 0)))
  = 90.
Proof.
  exact (proj1 (progress_after_ticks 12
                  (Upload.uploadStart (Upload.mkState false [Scenario.png] false 0))
                  eq_refl)).
Defined.

End UploadModal.

Section Uploaded.

Lemma upload_step_locked (e : Upload.Event) (st : Upload.State) :
  Upload.uploading st = true ->
  Upload.uploading (fst (Upload.step e st)) = true /\
  snd (Upload.step e st) = [] /\
  exists added,
    Upload.selectedFiles (fst (Upload.step e st))
    = Upload.selectedFiles st ++ added.
Proof.
  intros Hu.
  assert (Hsame : Upload.uploading st = true /\ @nil Upload.Effect = [] /\
                  exists added, Upload.selectedFiles st
                                = Upload.selectedFiles st ++ added).
  { split; [exact Hu|]. split; [reflexivity|]. exists []. now rewrite app_nil_r. }
  destruct e as [kind|dropped|chosen|index| | |]; simpl.
  - unfold Upload.handleDrag.
    destruct (String.eqb kind "dragenter" || String.eqb kind "dragover")%bool;
      [|destruct (String.eqb kind "dragleave")]; simpl; exact Hsame.
  - unfold Upload.handleDrop. destruct (0 <? _); simpl; [|exact Hsame].
    split; [exact Hu|]. split; [reflexivity|]. now eexists.
  - rewrite Hu. exact Hsame.
  - rewrite Hu. exact Hsame.
  - rewrite Hu, orb_true_r. exact Hsame.
  - rewrite Hu. exact Hsame.
  - exact Hsame.
Qed.

(** X21: while an upload is in progress the controls of the modal cannot
    end it.  After any run of their events the upload is still in progress,
    every file that was selected is still selected, in place (a drop can add
    files behind them), and neither [onUpload] nor [onClose] has been
    called. *)
Theorem upload_in_progress_locks (events : list Upload.Event)
        (st : Upload.State) :
  Upload.uploading st = true ->
  Upload.uploading (fst (Upload.run events st)) = true /\
  snd (Upload.run events st) = [] /\
  exists added,
    Upload.selectedFiles (fst (Upload.run events st))
    = Upload.selectedFiles st ++ added.
Proof.
  revert st; induction events as [|e events IH]; intros st Hu; simpl.
  - split; [exact Hu|]. split; [reflexivity|]. exists []. now rewrite app_nil_r.
  - destruct (upload_step_locked e st Hu) as (Hu1 & Hout1 & added1 & Hf1).
    destruct (Upload.step e st) as [st1 out1]. simpl in *.
    destruct (IH st1 Hu1) as (Hu2 & Hout2 & added2 & Hf2).
    destruct (Upload.run events st1) as [st2 out2]. simpl in *.
    split; [exact Hu2|]. split; [now rewrite Hout1, Hout2|].
    exists (added1 ++ added2). now rewrite Hf2, Hf1, app_assoc.
Qed.

(** During an upload of one file: close, remove, upload again, a tick and
    a drop of two more files. *)
Lemma upload_in_progress_locks_witness :
  Upload.run [Upload.CloseButton; Upload.RemoveFile 0; Upload.UploadButton;
              Upload.Tick; Upload.Drop [Scenario.pdf; Scenario.jpg]]
             (Upload.mkState false [Scenario.png] true 0)
  = (Upload.mkState false [Scenario.png; Scenario.jpg] true 10, []) /\
  Upload.uploading
    (fst (Upload.run [Upload.CloseButton; Upload.RemoveFile 0;
                      Upload.UploadButton; Upload.Tick;
                      Upload.Drop [Scenario.pdf; Scenario.jpg]]
                     (Upload.mkState false [Scenario.png] true 0))) = true.
Proof.
  split; [reflexivity|].
  exact (proj1 (upload_in_progress_locks
                  [Upload.CloseButton; Upload.RemoveFile 0; Upload.UploadButton;
                   Upload.Tick; Upload.Drop [Scenario.pdf; Scenario.jpg]]
                  (Upload.mkState false [Scenario.png] true 0) eq_refl)).
Defined.

Lemma simple_step_images (e : UploadSimple.Event) (st : UploadSimple.State) :
  Forall (fun f => Upload.isImage f = true) (UploadSimple.selectedFiles st) ->
  Forall (fun f => Upload.isImage f = true)
         (UploadSimple.selectedFiles (fst (UploadSimple.step e st))) /\
  (forall files,
      In (UploadSimple.OnUpload files) (snd (UploadSimple.step e st)) ->
      files = UploadSimple.selectedFiles st /\ files <> [] /\
      UploadSimple.isUploading st = false).
Proof.
  intros Himg.
  assert (Hfilter : forall l, Forall (fun f => Upload.isImage f = true)
                                     (filter Upload.isImage l)).
  { intros l. apply Forall_forall. intros f Hf. now apply filter_In in Hf. }
  destruct e; simpl.
  - split; [exact Himg | intros files []].
  - split; [exact Himg | intros files []].
  - unfold UploadSimple.handleDrop.
    destruct (0 <? _); simpl; (split; [auto | intros files []]).
  - unfold UploadSimple.handleFileSelect.
    destruct (0 <? _); simpl; (split; [auto | intros files []]).
  - split; [now apply Forall_images_without | intros files []].
  - destruct (Z.eqb_spec (Z.of_nat (List.length (UploadSimple.selectedFiles st))) 0)
      as [E|E]; simpl; [split; [exact Himg | intros files []]|].
    destruct (UploadSimple.isUploading st) eqn:Hu; simpl;
      [split; [exact Himg | intros files []]|].
    unfold UploadSimple.uploadStart.
    destruct (Z.eqb_spec (Z.of_nat (List.length (UploadSimple.selectedFiles st))) 0);
      [contradiction|].
    simpl. split; [exact Himg|].
    intros files [H | []]. injection H as <-.
    repeat split. intros E'. rewrite E' in E. now apply E.
  - destruct fulfilled; simpl.
    + split; [constructor | intros files [H | []]; discriminate].
    + split; [exact Himg | intros files []].
  - split; [exact Himg | intros files [H | []]; discriminate].
Qed.

(** X22: the earlier modal never hands anything but images to its host:
    after any run of events the selected files are images, and every call of
    [onUpload] in the run was made with a non-empty list of image files. *)
Theorem simple_upload_only_images (events : list UploadSimple.Event) :
  Forall (fun f => Upload.isImage f = true)
         (UploadSimple.selectedFiles
            (fst (UploadSimple.run events UploadSimple.initial))) /\
  (forall files,
      In (UploadSimple.OnUpload files)
         (snd (UploadSimple.run events UploadSimple.initial)) ->
      files <> [] /\ Forall (fun f => Upload.isImage f = true) files).
Proof.
  assert (G : forall events st,
             Forall (fun f => Upload.isImage f = true)
                    (UploadSimple.selectedFiles st) ->
             Forall (fun f => Upload.isImage f = true)
                    (UploadSimple.selectedFiles (fst (UploadSimple.run events st))) /\
             (forall files,
                 In (UploadSimple.OnUpload files)
                    (snd (UploadSimple.run events st)) ->
                 files <> [] /\ Forall (fun f => Upload.isImage f = true) files)).
  { clear events. induction events as [|e events IH]; intros st Himg; simpl.
    - split; [exact Himg | intros files []].
    - destruct (simple_step_images e st Himg) as [Himg1 Hout1].
      destruct (UploadSimple.step e st) as [st1 out1]. simpl in *.
      destruct (IH st1 Himg1) as [Himg2 Hout2].
      destruct (UploadSimple.run events st1) as [st2 out2]. simpl in *.
      split; [exact Himg2|].
      intros files Hin. apply in_app_or in Hin as [Hin | Hin].
      + destruct (Hout1 files Hin) as (-> & Hne & _). auto.
      + now apply Hout2. }
  apply G. constructor.
Qed.

(** A drop of three files, an upload, and its rejection: the one call of
    [onUpload] got the two images. *)
Lemma simple_upload_only_images_witness :
  snd (UploadSimple.run
         [UploadSimple.Drop [Scenario.png; Scenario.pdf; Scenario.jpg];
          UploadSimple.UploadButton; UploadSimple.Settled false]
         UploadSimple.initial)
  = [UploadSimple.OnUpload [Scenario.png; Scenario.jpg]] /\
  [Scenario.png; Scenario.jpg] <> [].
Proof.
  split; [reflexivity|].
  refine (proj1 (proj2 (simple_upload_only_images
                          [UploadSimple.Drop [Scenario.png; Scenario.pdf; Scenario.jpg];
                           UploadSimple.UploadButton; UploadSimple.Settled false])
                       [Scenario.png; Scenario.jpg] _)).
  simpl. auto.
Defined.

End Uploaded.

(** ** The viewer: the position shown *)

(** X23: the header of the viewer shows "k of n" with [1 <= k <= n], [k]
    being the place of the first displayed photo with the current id (no
    photo at an earlier place has that id), when such a photo is displayed,
    and "0 of n" when none is. *)
Theorem position_counter (photos : list Photo) (photo : Photo) :
  snd (ViewerEvents.counter photos photo) = Z.of_nat (List.length photos) /\
  (In (id photo) (map id photos) ->
   1 <= fst (ViewerEvents.counter photos photo) <= Z.of_nat (List.length photos) /\
   (exists c, JS.at_index photos
                (Some (fst (ViewerEvents.counter photos photo) - 1)) = Some c /\
              id c = id photo) /\
   (forall j b, 0 <= j < fst (ViewerEvents.counter photos photo) - 1 ->
                JS.at_index photos (Some j) = Some b -> id b <> id photo)) /\
  (~ In (id photo) (map id photos) ->
   fst (ViewerEvents.counter photos photo) = 0).
Proof.
  unfold ViewerEvents.counter, ViewerEvents.currentIndex. cbn [fst snd].
  split; [reflexivity|]. split.
  - intros Hin. apply same_id_present in Hin.
    destruct (findIndex_first _ photos Hin) as (k & c & Hi & Hk & Hc & Hlt).
    rewrite Hi.
    replace (Z.of_nat k + 1 - 1) with (Z.of_nat k) by lia.
    split; [|split].
    + assert (k < List.length photos)%nat; [|lia].
      apply nth_error_Some. congruence.
    + exists c. rewrite at_index_nat. split; [exact Hk|].
      now apply String.eqb_eq.
    + intros j b Hj Hb.
      replace j with (Z.of_nat (Z.to_nat j)) in Hb by lia.
      rewrite at_index_nat in Hb. apply String.eqb_neq.
      apply (Hlt (Z.to_nat j) b); [lia | exact Hb].
  - intros Hnot. unfold JS.findIndex. rewrite findIndex_from_none; [reflexivity|].
    intros a Ha. apply String.eqb_neq. intros E. apply Hnot.
    rewrite <- E. now apply in_map.
Qed.

(** The third of the three sample photos, and a photo that is not
    displayed. *)
Lemma position_counter_witness :
  ViewerEvents.counter [Sample.P1; Sample.P2; Sample.P3] Sample.P3 = (3, 3) /\
  fst (ViewerEvents.counter [Sample.P1; Sample.P2] Sample.P3) = 0.
Proof.
  split; [reflexivity|].
  refine (proj2 (proj2 (position_counter [Sample.P1; Sample.P2] Sample.P3)) _).
  simpl. intros [H | [H | []]]; discriminate.
Defined.
